(** * mcp-add: the client adapters and the merge-write engine

    A shallow embedding of the JavaScript sources of the command line tool
    that registers one MCP server description in the configuration files of
    several client applications:

    - [src/clients/types.js]       the server descriptor and the result types;
    - [src/clients/claude.js], [claude_code.js], [cursor.js], [continue.js],
      [windsurf.js], [opencode.js], [vscode.js], [goose.js], [codex.js]
                                   one adapter per client;
    - [src/clients/index.js]       the registry of adapters;
    - [src/index.js]               the loop that applies a descriptor to the
                                   selected clients.

    JavaScript values are modelled as a tree type with the own properties of
    an object kept in enumeration order; exceptions are an explicit [Throw]
    outcome; the file system, the [path], [os] and [process] modules and the
    JSON, YAML, TOML and JSONC libraries are the fields of a class
    [NodeRuntime], so every statement holds for all their behaviours. *)

From Stdlib Require Import Ascii String NArith ZArith Uint63 PrimFloat.
From stdpp Require Import base strings list.

Open Scope string_scope.
Open Scope list_scope.
Set Warnings "-register-all".

(** ** JavaScript values *)

(** A number is an IEEE double, as in the language.  An array carries its
    elements (a hole reads as [VUndefined]) and the named own properties
    that an assignment such as [arr.mcpServers = {}] adds to it.  The own
    properties of an object are listed in the order in which
    [Object.keys], [JSON.stringify] and [for-in] enumerate them. *)
Inductive value : Type :=
| VUndefined
| VNull
| VBool (b : bool)
| VNum (n : float)
| VStr (s : string)
| VArr (elems : list value) (props : list (string * value))
| VObj (props : list (string * value)).

Definition props := list (string * value).

(** The errors the embedded code can meet; [catch] handlers of the adapters
    only read the message. *)
Inductive js_error : Type :=
| TypeError (message : string)
| RangeError (message : string)
| Error (message : string).

Definition err_message (e : js_error) : string :=
  match e with TypeError m | RangeError m | Error m => m end.

Inductive result (A : Type) : Type :=
| Ok (a : A)
| Throw (e : js_error).
Arguments Ok {A} a.
Arguments Throw {A} e.

Definition bindR {A B} (r : result A) (k : A -> result B) : result B :=
  match r with Ok a => k a | Throw e => Throw e end.

Notation "x <~ c1 ;; c2" := (bindR c1 (fun x => c2))
  (at level 100, c1 at next level, right associativity).

(** [ToBoolean]: what [!v], [a || b] and [a && b] test. *)
Definition truthy (v : value) : bool :=
  match v with
  | VUndefined | VNull => false
  | VBool b => b
  | VNum n => negb (is_zero n || is_nan n)
  | VStr s => negb (String.eqb s "")
  | VArr _ _ | VObj _ => true
  end.

Definition js_or (a b : value) : value := if truthy a then a else b.

(** ** Property keys *)

Definition digit_of (c : ascii) : option N :=
  let n := N_of_ascii c in
  if ((48 <=? n) && (n <=? 57))%N then Some (n - 48)%N else None.

Fixpoint digits_value (s : string) (acc : N) : option N :=
  match s with
  | EmptyString => Some acc
  | String c s' =>
      match digit_of c with
      | Some d => digits_value s' (10 * acc + d)%N
      | None => None
      end
  end.

(** An array index is the canonical decimal spelling of an integer between
    0 and 2^32 - 2: digits only and no leading zero. *)
Definition array_index (k : string) : option N :=
  match k with
  | EmptyString => None
  | String "0" EmptyString => Some 0%N
  | String "0" _ => None
  | _ =>
      match digits_value k 0 with
      | Some n => if (n <? 4294967295)%N then Some n else None
      | None => None
      end
  end.

(** ** Own properties *)

Fixpoint lookup_prop (k : string) (ps : props) : option value :=
  match ps with
  | [] => None
  | (k', v) :: ps' => if String.eqb k k' then Some v else lookup_prop k ps'
  end.

Fixpoint replace_prop (k : string) (v : value) (ps : props) : props :=
  match ps with
  | [] => []
  | (k', v') :: ps' =>
      if String.eqb k k' then (k', v) :: ps' else (k', v') :: replace_prop k v ps'
  end.

(** A new array-index key goes among the leading array-index keys, in
    ascending numeric order. *)
Fixpoint insert_index_prop (n : N) (k : string) (v : value) (ps : props) : props :=
  match ps with
  | [] => [(k, v)]
  | (k', v') :: ps' =>
      match array_index k' with
      | Some m =>
          if (m <? n)%N then (k', v') :: insert_index_prop n k v ps'
          else (k, v) :: ps
      | None => (k, v) :: ps
      end
  end.

(** Creation of an own property.  Enumeration lists array-index keys
    first, in ascending order, and then the other keys in creation order. *)
Definition define_prop (k : string) (v : value) (ps : props) : props :=
  match array_index k with
  | Some n => insert_index_prop n k v ps
  | None => ps ++ [(k, v)]
  end.

(** [o[k] = v] on the own properties of an ordinary object or on the named
    properties of an array.  An existing own property keeps its place.
    When [k] is not an own property the assignment walks the prototype
    chain: [__proto__] is an accessor of [Object.prototype], so its setter
    runs and no own property appears; every other inherited member is a
    writable data property, so the own property is created.  This is the
    assignment on an object whose prototype is [Object.prototype], as an
    object literal or what [JSON.parse] returns; on an object without a
    prototype, as the tables that the TOML parser returns, [__proto__] is
    a key like any other, and the statements below that depend on the
    difference leave that name out. *)
Definition set_own (k : string) (v : value) (ps : props) : props :=
  match lookup_prop k ps with
  | Some _ => replace_prop k v ps
  | None => if String.eqb k "__proto__" then ps else define_prop k v ps
  end.

Definition number_of_nat (n : nat) : float :=
  PrimFloat.of_uint63 (Uint63.of_Z (Z.of_nat n)).

(** [v[k]].  The adapters read the constant keys [mcpServers], [servers],
    [mcp_servers], [extensions], [mcp], [$schema] and [name], none of which
    is a built-in member of a prototype: the read is a lookup among the
    own properties.  It throws on [null] and [undefined] and gives
    [undefined] on the other primitives. *)
Definition get_prop (v : value) (k : string) : result value :=
  match v with
  | VUndefined =>
      Throw (TypeError ("Cannot read properties of undefined (reading '" +:+ k +:+ "')"))
  | VNull =>
      Throw (TypeError ("Cannot read properties of null (reading '" +:+ k +:+ "')"))
  | VObj ps => Ok (default VUndefined (lookup_prop k ps))
  | VArr es ps =>
      match array_index k with
      | Some n => Ok (nth (N.to_nat n) es VUndefined)
      | None =>
          if String.eqb k "length" then Ok (VNum (number_of_nat (length es)))
          else Ok (default VUndefined (lookup_prop k ps))
      end
  | VBool _ | VNum _ | VStr _ => Ok VUndefined
  end.

(** [arr[n] = v]: in range the element is replaced, beyond the end the
    array grows and the skipped positions are holes. *)
Definition set_elem (n : nat) (v : value) (es : list value) : list value :=
  if decide (n < length es) then <[n := v]> es
  else es ++ replicate (n - length es) VUndefined ++ [v].

(** [target[k] = v] in strict mode (the sources are ES modules).  The
    values the adapters assign are the object and array literals [{}] and
    [[]] and the objects built by [transform_config]; assigning such an
    object to the [length] of an array is a [RangeError].  On a primitive
    target the message names the type and the value of the target; the
    text of a number is left out here, and no statement below depends on
    the text of these messages. *)
Definition set_prop (target : value) (k : string) (v : value) : result value :=
  match target with
  | VUndefined =>
      Throw (TypeError ("Cannot set properties of undefined (setting '" +:+ k +:+ "')"))
  | VNull =>
      Throw (TypeError ("Cannot set properties of null (setting '" +:+ k +:+ "')"))
  | VBool b =>
      Throw (TypeError ("Cannot create property '" +:+ k +:+ "' on boolean '"
                        +:+ (if b then "true" else "false") +:+ "'"))
  | VNum _ =>
      Throw (TypeError ("Cannot create property '" +:+ k +:+ "' on number"))
  | VStr s =>
      Throw (TypeError ("Cannot create property '" +:+ k +:+ "' on string '"
                        +:+ s +:+ "'"))
  | VObj ps => Ok (VObj (set_own k v ps))
  | VArr es ps =>
      match array_index k with
      | Some n => Ok (VArr (set_elem (N.to_nat n) v es) ps)
      | None =>
          if String.eqb k "length" then Throw (RangeError "Invalid array length")
          else Ok (VArr es (set_own k v ps))
      end
  end.

Definition keys (ps : props) : list string := map fst ps.

(** [Object.keys(v).length > 0] for the [env] and [headers] records. *)
Definition has_keys (v : value) : bool :=
  match v with
  | VObj ps => negb (Nat.eqb (length ps) 0)
  | _ => false
  end.

(** ** The server descriptor ([src/clients/types.js]) *)

(** [LocalServerConfig] has the type tag ['stdio'] and [RemoteServerConfig]
    the tag ['http']; [env] and [headers] are optional records of strings. *)
Inductive MCPServerConfig : Type :=
| LocalServerConfig (name command : string) (args : list string)
    (env : option (list (string * string)))
| RemoteServerConfig (name url : string)
    (headers : option (list (string * string))).

Record AddOptions : Type := { is_global : bool }.

Record AddResult : Type := {
  success : bool;
  path : string;
  error : option string
}.

Definition record_value (r : option (list (string * string))) : value :=
  match r with
  | Some kvs => VObj (map (fun kv => (kv.1, VStr kv.2)) kvs)
  | None => VUndefined
  end.

(** The reads [config.name], [config.type], ... ; a field the descriptor
    does not have reads as [undefined]. *)
Definition config_name (config : MCPServerConfig) : string :=
  match config with
  | LocalServerConfig name _ _ _ | RemoteServerConfig name _ _ => name
  end.

Definition config_type (config : MCPServerConfig) : string :=
  match config with
  | LocalServerConfig _ _ _ _ => "stdio"
  | RemoteServerConfig _ _ _ => "http"
  end.

Definition config_command (config : MCPServerConfig) : value :=
  match config with
  | LocalServerConfig _ command _ _ => VStr command
  | RemoteServerConfig _ _ _ => VUndefined
  end.

Definition config_args (config : MCPServerConfig) : value :=
  match config with
  | LocalServerConfig _ _ args _ => VArr (map VStr args) []
  | RemoteServerConfig _ _ _ => VUndefined
  end.

Definition config_env (config : MCPServerConfig) : value :=
  match config with
  | LocalServerConfig _ _ _ env => record_value env
  | RemoteServerConfig _ _ _ => VUndefined
  end.

Definition config_url (config : MCPServerConfig) : value :=
  match config with
  | LocalServerConfig _ _ _ _ => VUndefined
  | RemoteServerConfig _ url _ => VStr url
  end.

Definition config_headers (config : MCPServerConfig) : value :=
  match config with
  | LocalServerConfig _ _ _ _ => VUndefined
  | RemoteServerConfig _ _ headers => record_value headers
  end.

(** [if (r && Object.keys(r).length > 0) result.field = r]: the property
    the statement adds to the literal under construction. *)
Definition optional_record (field : string) (r : value) : props :=
  if truthy r && has_keys r then [(field, r)] else [].

(** ** The Node.js runtime *)

(** What the adapters ask of their environment.  File-system calls answer
    from a state [FS] and may fail; [mkdirSync] is always called with
    [{ recursive: true }].  The parsers may throw; [JSON.stringify] (called
    with indent 2) does not throw on the values met here, the YAML and
    TOML stringifiers are third-party code and may.  [jsonc_modify] is
    called with the fixed formatting options [{ tabSize: 2, insertSpaces:
    true }] and returns the text edits that [jsonc_applyEdits] applies.
    [os_homedir] and [process_cwd] are the home and the working directory,
    which the calls [os.homedir()] and [process.cwd()] return when they
    return; whether they return is said by the process, below. *)
Class NodeRuntime : Type := {
  FS : Type;
  fs_existsSync : string -> FS -> bool;
  fs_readFileSync : string -> FS -> result string;
  fs_mkdirSync : string -> FS -> FS * result unit;
  fs_writeFileSync : string -> string -> FS -> FS * result unit;
  path_join : list string -> string;
  path_dirname : string -> string;
  os_homedir : string;
  os_platform : string;
  process_cwd : string;
  process_platform : string;
  process_env : string -> option string;
  toLowerCase : string -> string;
  JSON_parse : string -> result value;
  JSON_stringify : value -> string;
  YAML_parse : string -> result value;
  YAML_stringify : value -> result string;
  TOML_parse : string -> result value;
  TOML_stringify : value -> result string;
  Edits : Type;
  jsonc_parse : string -> result value;
  jsonc_modify : string -> list string -> value -> result Edits;
  jsonc_applyEdits : string -> Edits -> result string
}.

(** ** The calls that can fail before the [try] of an adapter

    [os.homedir()] and [process.cwd()] are calls: each returns the
    directory of the runtime or throws (no home directory can be found for
    the user; the working directory has been removed).  Every adapter makes
    them while it resolves the path of its file, which it does before its
    [try] block.  A process says which of the two calls throw, and what. *)
Class Process : Type := {
  homedir_throws : option js_error;
  cwd_throws : option js_error
}.

(** The process in which both calls return. *)
Definition healthy : Process :=
  {| homedir_throws := None; cwd_throws := None |}.

(** The calls an adapter makes, in the order it makes them; [ExistsSync]
    keeps the answer it got. *)
Inductive call : Type :=
| ExistsSync (p : string) (answer : bool)
| ReadFileSync (p : string)
| MkdirSync (p : string)
| WriteFileSync (p : string) (data : string)
| JsoncModify (text : string) (at_path : list string) (v : value).

Section Effects.
Context {R : NodeRuntime}.

Record World : Type := { files : FS; calls : list call }.

Definition record (c : call) (w : World) : World :=
  {| files := files w; calls := calls w ++ [c] |}.

(** The world before any call. *)
Definition start (f : FS) : World := {| files := f; calls := [] |}.

(** A computation reads and updates the world and returns or throws. *)
Definition M (A : Type) : Type := World -> World * result A.

Definition ret {A} (a : A) : M A := fun w => (w, Ok a).

Definition bindM {A B} (m : M A) (k : A -> M B) : M B :=
  fun w =>
    match m w with
    | (w', Ok a) => k a w'
    | (w', Throw e) => (w', Throw e)
    end.

Definition liftR {A} (r : result A) : M A := fun w => (w, r).

(** [try { body } catch (err) { handler }] *)
Definition try_catch {A} (body : M A) (handler : js_error -> M A) : M A :=
  fun w =>
    match body w with
    | (w', Ok a) => (w', Ok a)
    | (w', Throw e) => handler e w'
    end.

Definition existsSync (p : string) : M bool :=
  fun w =>
    let b := fs_existsSync p (files w) in (record (ExistsSync p b) w, Ok b).

Definition readFileSync (p : string) : M string :=
  fun w => (record (ReadFileSync p) w, fs_readFileSync p (files w)).

Definition mkdirSync (p : string) : M unit :=
  fun w =>
    let '(f, r) := fs_mkdirSync p (files w) in
    ({| files := f; calls := calls w ++ [MkdirSync p] |}, r).

Definition writeFileSync (p data : string) : M unit :=
  fun w =>
    let '(f, r) := fs_writeFileSync p data (files w) in
    ({| files := f; calls := calls w ++ [WriteFileSync p data] |}, r).
End Effects.

Notation "x <- c1 ;; c2" := (bindM c1 (fun x => c2))
  (at level 100, c1 at next level, right associativity).
Notation "c1 ;;; c2" := (bindM c1 (fun _ => c2))
  (at level 100, right associativity).

Definition newline : string := String "010" EmptyString.

Fixpoint ends_with_newline (s : string) : bool :=
  match s with
  | EmptyString => false
  | String c EmptyString => Ascii.eqb c "010"
  | String _ s' => ends_with_newline s'
  end.

(** ** Code shared by the adapters

    The nine adapter files repeat the same statements with a different
    container key, parser and stringifier.  Each repeated block is embedded
    once here and used by every adapter that contains it. *)

Section Shared.
Context {R : NodeRuntime} {P : Process}.

(** [os.homedir()] *)
Definition call_os_homedir : result string :=
  match homedir_throws with
  | Some e => Throw e
  | None => Ok os_homedir
  end.

(** [process.cwd()] *)
Definition call_process_cwd : result string :=
  match cwd_throws with
  | Some e => Throw e
  | None => Ok process_cwd
  end.

(** [process.env.NAME || fallback] *)
Definition env_or (name fallback : string) : string :=
  match process_env name with
  | Some s => if String.eqb s "" then fallback else s
  | None => fallback
  end.

(** [process.env.NAME || fallback] where the fallback makes a call: it is
    evaluated only when the variable is unset or empty. *)
Definition env_or_else (name : string) (fallback : result string)
    : result string :=
  match process_env name with
  | Some s => if String.eqb s "" then fallback else Ok s
  | None => fallback
  end.

(** [const dir = path.dirname(config_path);
    if (!fs.existsSync(dir)) fs.mkdirSync(dir, { recursive: true });] *)
Definition ensure_directory (config_path : string) : M unit :=
  let dir := path_dirname config_path in
  exists_ <- existsSync dir ;;
  if negb exists_ then mkdirSync dir else ret tt.

(** [read_config] of the JSON, YAML and TOML adapters:
    [try { if (fs.existsSync(p)) { const content = fs.readFileSync(p, 'utf-8');
    return parse(content); } } catch { } return {};] *)
Definition read_config_with (parse : string -> result value)
    (config_path : string) : M value :=
  try_catch
    (exists_ <- existsSync config_path ;;
     if exists_ then
       content <- readFileSync config_path ;;
       liftR (parse content)
     else ret (VObj []))
    (fun _ => ret (VObj [])).

(** The [try { ...; return { success: true, path } } catch (err)
    { return { success: false, path, error: err.message } }] frame around
    the body of every adapter. *)
Definition guarded (config_path : string) (body : M unit) : M AddResult :=
  try_catch
    (body ;;; ret {| success := true; path := config_path; error := None |})
    (fun err =>
       ret {| success := false; path := config_path;
              error := Some (err_message err) |}).

(** Mapping-by-name upsert, as in [claude_code.js] lines 91-98:
    [if (!existing_config[key]) existing_config[key] = {};
     const mcp_servers = existing_config[key];
     mcp_servers[name] = entry;]
    [mcp_servers] is the object held by [existing_config], so the
    assignment to it is seen through [existing_config]: the last line
    puts the updated container back at its place. *)
Definition upsert_server (key : string) (existing_config : value)
    (name : string) (entry : value) : result value :=
  container <~ get_prop existing_config key ;;
  existing_config <~
    (if negb (truthy container) then set_prop existing_config key (VObj [])
     else Ok existing_config) ;;
  mcp_servers <~ get_prop existing_config key ;;
  mcp_servers <~ set_prop mcp_servers name entry ;;
  set_prop existing_config key mcp_servers.

(** The body shared by the JSON adapters after the directory step. *)
Definition merge_and_write_json (read_config : string -> M value)
    (key : string) (transform_config : MCPServerConfig -> value)
    (config_path : string) (config : MCPServerConfig) : M unit :=
  existing_config <- read_config config_path ;;
  existing_config <-
    liftR (upsert_server key existing_config (config_name config)
             (transform_config config)) ;;
  writeFileSync config_path (JSON_stringify existing_config +:+ newline).
End Shared.

(** ** [src/clients/claude.js] *)
Module Claude.
Section Claude.
Context {R : NodeRuntime} {P : Process}.

Definition get_config_path : result string :=
  let platform := os_platform in
  if String.eqb platform "darwin" then
    home <~ call_os_homedir ;;
    Ok (path_join [home; "Library"; "Application Support"; "Claude";
                   "claude_desktop_config.json"])
  else if String.eqb platform "win32" then
    appdata <~
      env_or_else "APPDATA"
        (home <~ call_os_homedir ;; Ok (path_join [home; "AppData"; "Roaming"])) ;;
    Ok (path_join [appdata; "Claude"; "claude_desktop_config.json"])
  else
    home <~ call_os_homedir ;;
    Ok (path_join [home; ".config"; "claude"; "claude_desktop_config.json"]).

Definition read_config : string -> M value := read_config_with JSON_parse.

Definition transform_config (config : MCPServerConfig) : value :=
  if String.eqb (config_type config) "stdio" then
    VObj ([("command", config_command config);
           ("args", js_or (config_args config) (VArr [] []))]
          ++ optional_record "env" (config_env config))
  else
    VObj ([("url", config_url config)]
          ++ optional_record "headers" (config_headers config)).

(** [const config_path = get_config_path();] stands before the [try]:
    what it throws is thrown by the adapter. *)
Definition add_to_claude (config : MCPServerConfig) (_options : AddOptions)
    : M AddResult :=
  config_path <- liftR get_config_path ;;
  guarded config_path
    (ensure_directory config_path ;;;
     merge_and_write_json read_config "mcpServers" transform_config
       config_path config).
End Claude.
End Claude.

(** ** [src/clients/claude_code.js] *)
Module ClaudeCode.
Section ClaudeCode.
Context {R : NodeRuntime} {P : Process}.

Definition get_config_path (is_global : bool) : result string :=
  if is_global then
    home <~ call_os_homedir ;; Ok (path_join [home; ".claude.json"])
  else
    cwd <~ call_process_cwd ;; Ok (path_join [cwd; ".mcp.json"]).

Definition read_config : string -> M value := read_config_with JSON_parse.

Definition transform_config (config : MCPServerConfig) : value :=
  if String.eqb (config_type config) "stdio" then
    VObj ([("command", config_command config);
           ("args", js_or (config_args config) (VArr [] []));
           ("type", VStr (config_type config))]
          ++ optional_record "env" (config_env config))
  else
    VObj ([("url", config_url config);
           ("type", VStr (config_type config))]
          ++ optional_record "headers" (config_headers config)).

(** The directory step is guarded: [// Ensure directory exists (only
    needed for global config)  if (options.is_global) { ... }]. *)
Definition add_to_claude_code (config : MCPServerConfig) (options : AddOptions)
    : M AddResult :=
  config_path <- liftR (get_config_path (is_global options)) ;;
  guarded config_path
    ((if is_global options then ensure_directory config_path else ret tt) ;;;
     merge_and_write_json read_config "mcpServers" transform_config
       config_path config).
End ClaudeCode.
End ClaudeCode.

(** ** [src/clients/cursor.js] *)
Module Cursor.
Section Cursor.
Context {R : NodeRuntime} {P : Process}.

Definition get_config_path (is_global : bool) : result string :=
  if is_global then
    home <~ call_os_homedir ;; Ok (path_join [home; ".cursor"; "mcp.json"])
  else
    cwd <~ call_process_cwd ;; Ok (path_join [cwd; ".cursor"; "mcp.json"]).

Definition read_config : string -> M value := read_config_with JSON_parse.

Definition transform_config (config : MCPServerConfig) : value :=
  if String.eqb (config_type config) "stdio" then
    VObj ([("command", config_command config);
           ("args", js_or (config_args config) (VArr [] []))]
          ++ optional_record "env" (config_env config))
  else
    VObj ([("url", config_url config); ("transport", VStr "sse")]
          ++ optional_record "headers" (config_headers config)).

Definition add_to_cursor (config : MCPServerConfig) (options : AddOptions)
    : M AddResult :=
  config_path <- liftR (get_config_path (is_global options)) ;;
  guarded config_path
    (ensure_directory config_path ;;;
     merge_and_write_json read_config "mcpServers" transform_config
       config_path config).
End Cursor.
End Cursor.

(** ** [src/clients/vscode.js] *)
Module VSCode.
Section VSCode.
Context {R : NodeRuntime} {P : Process}.

Definition get_vscode_user_data_dir : string :=
  let platform := process_platform in
  let home := env_or "HOME" (env_or "USERPROFILE" "") in
  if String.eqb platform "darwin" then
    path_join [home; "Library"; "Application Support"; "Code"; "User"]
  else if String.eqb platform "win32" then
    path_join [env_or "APPDATA" ""; "Code"; "User"]
  else
    path_join [home; ".config"; "Code"; "User"].

(** At global scope the path is made from the environment variables alone
    and no call is made that can throw. *)
Definition get_config_path (is_global : bool) : result string :=
  if is_global then Ok (path_join [get_vscode_user_data_dir; "mcp.json"])
  else cwd <~ call_process_cwd ;; Ok (path_join [cwd; ".vscode"; "mcp.json"]).

Definition read_config : string -> M value := read_config_with JSON_parse.

Definition transform_config (config : MCPServerConfig) : value :=
  if String.eqb (config_type config) "stdio" then
    VObj ([("type", VStr "stdio");
           ("command", config_command config);
           ("args", js_or (config_args config) (VArr [] []))]
          ++ optional_record "env" (config_env config))
  else
    VObj ([("type", VStr "http"); ("url", config_url config)]
          ++ optional_record "headers" (config_headers config)).

Definition add_to_vscode (config : MCPServerConfig) (options : AddOptions)
    : M AddResult :=
  config_path <- liftR (get_config_path (is_global options)) ;;
  guarded config_path
    (ensure_directory config_path ;;;
     merge_and_write_json read_config "servers" transform_config
       config_path config).
End VSCode.
End VSCode.

(** ** [src/clients/windsurf.js] *)
Module Windsurf.
Section Windsurf.
Context {R : NodeRuntime} {P : Process}.

Definition get_config_path : result string :=
  home <~ call_os_homedir ;;
  Ok (path_join [home; ".codeium"; "windsurf"; "mcp_config.json"]).

Definition read_config : string -> M value := read_config_with JSON_parse.

(** The test is [config.type === 'local']. *)
Definition transform_config (config : MCPServerConfig) : value :=
  if String.eqb (config_type config) "local" then
    VObj ([("command", config_command config);
           ("args", js_or (config_args config) (VArr [] []))]
          ++ optional_record "env" (config_env config))
  else
    VObj ([("serverUrl", config_url config)]
          ++ optional_record "headers" (config_headers config)).

Definition add_to_windsurf (config : MCPServerConfig) (_options : AddOptions)
    : M AddResult :=
  config_path <- liftR get_config_path ;;
  guarded config_path
    (ensure_directory config_path ;;;
     merge_and_write_json read_config "mcpServers" transform_config
       config_path config).
End Windsurf.
End Windsurf.

(** ** [src/clients/continue.js] *)
Module Continue.
Section Continue.
Context {R : NodeRuntime} {P : Process}.

Definition get_config_path (is_global : bool) : result string :=
  if is_global then
    home <~ call_os_homedir ;; Ok (path_join [home; ".continue"; "config.yaml"])
  else
    cwd <~ call_process_cwd ;; Ok (path_join [cwd; ".continue"; "config.yaml"]).

(** [const parsed = YAML.parse(content); return parsed || {};] *)
Definition read_config : string -> M value :=
  read_config_with
    (fun content => parsed <~ YAML_parse content ;; Ok (js_or parsed (VObj []))).

Definition transform_config (config : MCPServerConfig) : value :=
  if String.eqb (config_type config) "stdio" then
    VObj ([("name", VStr (config_name config));
           ("type", VStr "stdio");
           ("command", config_command config);
           ("args", js_or (config_args config) (VArr [] []))]
          ++ optional_record "env" (config_env config))
  else
    VObj ([("name", VStr (config_name config));
           ("type", VStr (config_type config));
           ("url", config_url config)]
          ++ optional_record "headers" (config_headers config)).

(** [server.name === name], the callback given to [findIndex]. *)
Definition name_is (name : string) (server : value) : result bool :=
  n <~ get_prop server "name" ;;
  Ok (match n with VStr s => String.eqb s name | _ => false end).

(** [servers.findIndex((server) => server.name === name)] on the elements
    from position [i] on; -1 when no element passes the test. *)
Fixpoint find_index_from (name : string) (servers : list value) (i : Z)
    : result Z :=
  match servers with
  | [] => Ok (-1)%Z
  | server :: rest =>
      found <~ name_is name server ;;
      if found then Ok i else find_index_from name rest (i + 1)%Z
  end.

(** Only an array has [findIndex]; on any other value the call is a
    [TypeError]. *)
Definition findIndex (mcp_servers : value) (name : string) : result Z :=
  match mcp_servers with
  | VArr servers _ => find_index_from name servers 0%Z
  | _ => Throw (TypeError "mcp_servers.findIndex is not a function")
  end.

(** [if (existing_index >= 0) mcp_servers[existing_index] = new_server;
    else mcp_servers.push(new_server);] *)
Definition replace_or_push (mcp_servers : value) (existing_index : Z)
    (new_server : value) : result value :=
  match mcp_servers with
  | VArr servers named =>
      if (0 <=? existing_index)%Z then
        Ok (VArr (set_elem (Z.to_nat existing_index) new_server servers) named)
      else Ok (VArr (servers ++ [new_server]) named)
  | _ => Throw (TypeError "mcp_servers.push is not a function")
  end.

(** List-with-name-field upsert, lines 90-111; as in [upsert_server] the
    array is the one held by [existing_config]. *)
Definition upsert_server_in_list (existing_config : value)
    (config : MCPServerConfig) : result value :=
  container <~ get_prop existing_config "mcpServers" ;;
  existing_config <~
    (if negb (truthy container)
     then set_prop existing_config "mcpServers" (VArr [] [])
     else Ok existing_config) ;;
  mcp_servers <~ get_prop existing_config "mcpServers" ;;
  existing_index <~ findIndex mcp_servers (config_name config) ;;
  let new_server := transform_config config in
  mcp_servers <~ replace_or_push mcp_servers existing_index new_server ;;
  set_prop existing_config "mcpServers" mcp_servers.

Definition add_to_continue (config : MCPServerConfig) (options : AddOptions)
    : M AddResult :=
  config_path <- liftR (get_config_path (is_global options)) ;;
  guarded config_path
    (ensure_directory config_path ;;;
     existing_config <- read_config config_path ;;
     existing_config <- liftR (upsert_server_in_list existing_config config) ;;
     text <- liftR (YAML_stringify existing_config) ;;
     writeFileSync config_path text).
End Continue.
End Continue.

(** ** [src/clients/goose.js] *)
Module Goose.
Section Goose.
Context {R : NodeRuntime} {P : Process}.

Definition get_config_path : result string :=
  home <~ call_os_homedir ;;
  Ok (path_join [home; ".config"; "goose"; "config.yaml"]).

Definition read_config : string -> M value :=
  read_config_with
    (fun content => parsed <~ YAML_parse content ;; Ok (js_or parsed (VObj []))).

Definition transform_config (config : MCPServerConfig) : value :=
  if String.eqb (config_type config) "stdio" then
    VObj ([("name", VStr (config_name config));
           ("cmd", config_command config);
           ("args", js_or (config_args config) (VArr [] []));
           ("enabled", VBool true);
           ("type", VStr "stdio");
           ("timeout", VNum 300%float)]
          ++ optional_record "envs" (config_env config))
  else
    VObj ([("name", VStr (config_name config));
           ("type", VStr "streamable_http");
           ("url", config_url config);
           ("enabled", VBool true);
           ("timeout", VNum 300%float)]
          ++ optional_record "headers" (config_headers config)).

Definition add_to_goose (config : MCPServerConfig) (_options : AddOptions)
    : M AddResult :=
  config_path <- liftR get_config_path ;;
  guarded config_path
    (ensure_directory config_path ;;;
     existing_config <- read_config config_path ;;
     existing_config <-
       liftR (upsert_server "extensions" existing_config (config_name config)
                (transform_config config)) ;;
     text <- liftR (YAML_stringify existing_config) ;;
     writeFileSync config_path text).
End Goose.
End Goose.

(** ** [src/clients/codex.js] *)
Module Codex.
Section Codex.
Context {R : NodeRuntime} {P : Process}.

Definition get_config_path : result string :=
  home <~ call_os_homedir ;; Ok (path_join [home; ".codex"; "config.toml"]).

Definition read_config : string -> M value := read_config_with TOML_parse.

(** The test is [config.type === 'local']. *)
Definition transform_config (config : MCPServerConfig) : value :=
  if String.eqb (config_type config) "local" then
    VObj ([("command", config_command config);
           ("args", js_or (config_args config) (VArr [] []))]
          ++ optional_record "env" (config_env config))
  else
    VObj ([("url", config_url config)]
          ++ optional_record "http_headers" (config_headers config)).

Definition add_to_codex (config : MCPServerConfig) (_options : AddOptions)
    : M AddResult :=
  config_path <- liftR get_config_path ;;
  guarded config_path
    (ensure_directory config_path ;;;
     existing_config <- read_config config_path ;;
     existing_config <-
       liftR (upsert_server "mcp_servers" existing_config (config_name config)
                (transform_config config)) ;;
     text <- liftR (TOML_stringify existing_config) ;;
     writeFileSync config_path text).
End Codex.
End Codex.

(** ** [src/clients/opencode.js] *)
Module OpenCode.
Section OpenCode.
Context {R : NodeRuntime} {P : Process}.

(** [base_dir] of [get_config_path]; [os.homedir()] is called only when
    [XDG_CONFIG_HOME] is unset or empty. *)
Definition get_base_dir (is_global : bool) : result string :=
  if is_global then
    config_home <~
      env_or_else "XDG_CONFIG_HOME"
        (home <~ call_os_homedir ;; Ok (path_join [home; ".config"])) ;;
    Ok (path_join [config_home; "opencode"])
  else call_process_cwd.

(** The probe for [opencode.jsonc] reads the file system. *)
Definition get_config_path (is_global : bool) : M string :=
  base_dir <- liftR (get_base_dir is_global) ;;
  let jsonc_path := path_join [base_dir; "opencode.jsonc"] in
  let json_path := path_join [base_dir; "opencode.json"] in
  exists_ <- existsSync jsonc_path ;;
  ret (if exists_ then jsonc_path else json_path).

(** Returns the raw text together with [jsonc.parse(content) || {}]. *)
Definition read_config (config_path : string) : M (string * value) :=
  try_catch
    (exists_ <- existsSync config_path ;;
     if exists_ then
       content <- readFileSync config_path ;;
       config <- liftR (jsonc_parse content) ;;
       ret (content, js_or config (VObj []))
     else ret ("{}", VObj []))
    (fun _ => ret ("{}", VObj [])).

Definition transform_config (config : MCPServerConfig) : value :=
  if String.eqb (config_type config) "stdio" then
    let command_array :=
      match js_or (config_args config) (VArr [] []) with
      | VArr args _ => VArr (config_command config :: args) []
      | _ => VArr [config_command config] []
      end in
    VObj ([("type", VStr "local");
           ("command", command_array);
           ("enabled", VBool true)]
          ++ optional_record "environment" (config_env config))
  else
    VObj ([("type", VStr "remote");
           ("url", config_url config);
           ("enabled", VBool true)]
          ++ optional_record "headers" (config_headers config)).

Definition schema_url : string := "https://opencode.ai/config.json".

(** [const edit = jsonc.modify(text, path, v, options);
    text = jsonc.applyEdits(text, edit);] *)
Definition modify_and_apply (text : string) (at_path : list string) (v : value)
    : M string :=
  fun w =>
    (record (JsoncModify text at_path v) w,
     edit <~ jsonc_modify text at_path v ;; jsonc_applyEdits text edit).

Definition add_to_opencode (config : MCPServerConfig) (options : AddOptions)
    : M AddResult :=
  config_path <- get_config_path (is_global options) ;;
  guarded config_path
    (ensure_directory config_path ;;;
     loaded <- read_config config_path ;;
     let content := loaded.1 in
     let existing_config := loaded.2 in
     let new_server := transform_config config in
     let new_content := content in
     schema <- liftR (get_prop existing_config "$schema") ;;
     new_content <-
       (if negb (truthy schema)
        then modify_and_apply new_content ["$schema"] (VStr schema_url)
        else ret new_content) ;;
     mcp <- liftR (get_prop existing_config "mcp") ;;
     new_content <-
       (if negb (truthy mcp)
        then modify_and_apply new_content ["mcp"] (VObj [])
        else ret new_content) ;;
     new_content <-
       modify_and_apply new_content ["mcp"; config_name config] new_server ;;
     writeFileSync config_path
       (new_content +:+ (if ends_with_newline new_content then "" else newline))).
End OpenCode.
End OpenCode.

(** ** [src/clients/index.js] *)

(** [ClientAddFunction]: [(config, options) => Promise<AddResult>]. *)
Definition ClientAddFunction {R : NodeRuntime} : Type :=
  MCPServerConfig -> AddOptions -> M AddResult.

Module Clients.
Section Clients.
Context {R : NodeRuntime} {P : Process}.

(** [copilot_cli.js] and [gemini.js], which the registry imports, are not
    among the sources.  The two adapters are parameters with the type of
    the others; where a statement depends on them it assumes what the
    design says of every adapter: failures inside it are caught at its
    boundary and returned as a result. *)
Variables add_to_copilot_cli add_to_gemini : ClientAddFunction.

Definition clients : list (string * ClientAddFunction) :=
  [("claude desktop", Claude.add_to_claude);
   ("claude code", ClaudeCode.add_to_claude_code);
   ("copilot cli", add_to_copilot_cli);
   ("cursor", Cursor.add_to_cursor);
   ("continue", Continue.add_to_continue);
   ("windsurf", Windsurf.add_to_windsurf);
   ("opencode", OpenCode.add_to_opencode);
   ("vscode", VSCode.add_to_vscode);
   ("goose", Goose.add_to_goose);
   ("codex", Codex.add_to_codex);
   ("gemini", add_to_gemini)].

(** [clients[key]] for a key of the table.  Every id that reaches the
    loop of [main] was accepted by [client_names.includes], so the read
    never falls through to [Object.prototype]. *)
Fixpoint lookup_in (table : list (string * ClientAddFunction)) (key : string)
    : option ClientAddFunction :=
  match table with
  | [] => None
  | (k, fn) :: rest => if String.eqb key k then Some fn else lookup_in rest key
  end.

Definition lookup_client (key : string) : option ClientAddFunction :=
  lookup_in clients key.

(** [client_names.includes(c.toLowerCase())], the filter of [main]. *)
Definition is_client_name (c : string) : bool :=
  match lookup_client (toLowerCase c) with Some _ => true | None => false end.

(** The id passes that filter. *)
Definition selectable (client_name : string) : Prop :=
  is_client_name client_name = true.
End Clients.
End Clients.

(** ** [src/index.js] *)
Module Main.
Section Main.
Context {R : NodeRuntime} {P : Process}.
Variables add_to_copilot_cli add_to_gemini : ClientAddFunction.

(** [{ client: client_name, ...result }] *)
Record ClientResult : Type := { client : string; outcome : AddResult }.

(** The loop of [main] (the same in interactive and non-interactive
    mode): [for (const client_name of selected_clients) {
      const client_fn = clients[client_name.toLowerCase()];
      if (client_fn) { const result = await client_fn(config, { is_global });
                       results.push({ client: client_name, ...result }); } }] *)
Fixpoint configure_clients (config : MCPServerConfig) (is_global : bool)
    (selected_clients : list string) (results : list ClientResult)
    : M (list ClientResult) :=
  match selected_clients with
  | [] => ret results
  | client_name :: rest =>
      match Clients.lookup_client add_to_copilot_cli add_to_gemini
              (toLowerCase client_name) with
      | Some client_fn =>
          result <- client_fn config {| is_global := is_global |} ;;
          configure_clients config is_global rest
            (results ++ [{| client := client_name; outcome := result |}])
      | None => configure_clients config is_global rest results
      end
  end.
End Main.
End Main.

(** ** A small runtime for examples

    A file system that is a list of entries, paths joined with a slash, and
    parsers that know a table of texts.  It serves to run the adapters on
    concrete inputs. *)
Module Demo.

Inductive node : Type := File (content : string) | Directory.

Definition lookup_node (p : string) (fs : list (string * node)) : option node :=
  snd <$> List.find (fun e => String.eqb p e.1) fs.

Definition exists_ (p : string) (fs : list (string * node)) : bool :=
  match lookup_node p fs with Some _ => true | None => false end.

Definition read (p : string) (fs : list (string * node)) : result string :=
  match lookup_node p fs with
  | Some (File content) => Ok content
  | Some Directory => Throw (Error "EISDIR: illegal operation on a directory, read")
  | None => Throw (Error "ENOENT: no such file or directory")
  end.

Definition mkdir (p : string) (fs : list (string * node))
    : list (string * node) * result unit :=
  match lookup_node p fs with
  | Some (File _) => (fs, Throw (Error "EEXIST: file already exists, mkdir"))
  | Some Directory => (fs, Ok tt)
  | None => ((p, Directory) :: fs, Ok tt)
  end.

Definition write (p data : string) (fs : list (string * node))
    : list (string * node) * result unit :=
  match lookup_node p fs with
  | Some Directory =>
      (fs, Throw (Error "EISDIR: illegal operation on a directory, open"))
  | _ => ((p, File data) :: fs, Ok tt)
  end.

Fixpoint join (segments : list string) : string :=
  match segments with
  | [] => "."
  | [s] => s
  | s :: rest => s +:+ "/" +:+ join rest
  end.

(** The text before the last slash. *)
Fixpoint dirname (p : string) : string :=
  match p with
  | EmptyString => EmptyString
  | String c rest =>
      if existsb (Ascii.eqb "/") (list_ascii_of_string rest)
      then String c (dirname rest) else EmptyString
  end.

Definition lower_ascii (c : ascii) : ascii :=
  let n := nat_of_ascii c in
  if (65 <=? n)%nat && (n <=? 90)%nat then ascii_of_nat (n + 32) else c.

Fixpoint lower (s : string) : string :=
  match s with
  | EmptyString => EmptyString
  | String c rest => String (lower_ascii c) (lower rest)
  end.

Definition parse (table : list (string * value)) (text : string) : result value :=
  match List.find (fun e => String.eqb text e.1) table with
  | Some e => Ok e.2
  | None => Throw (Error "SyntaxError: unexpected token")
  end.

(** Shows the shape of a value: enough to tell two documents apart. *)
Fixpoint show (v : value) : string :=
  match v with
  | VUndefined => "undefined"
  | VNull => "null"
  | VBool true => "true"
  | VBool false => "false"
  | VNum _ => "<number>"
  | VStr s => "'" +:+ s +:+ "'"
  | VArr es _ => "[" +:+ fold_right (fun e acc => show e +:+ "," +:+ acc) "]" es
  | VObj ps =>
      "{" +:+ fold_right (fun kv acc => kv.1 +:+ ":" +:+ show kv.2 +:+ "," +:+ acc) "}" ps
  end.

(** A patch is the text appended to the file. *)
Definition modify (text : string) (at_path : list string) (v : value)
    : result string :=
  Ok (join at_path +:+ "=" +:+ show v +:+ ";").

Definition runtime (home cwd : string) (table : list (string * value))
    : NodeRuntime :=
  {| FS := list (string * node);
     fs_existsSync := exists_;
     fs_readFileSync := read;
     fs_mkdirSync := mkdir;
     fs_writeFileSync := write;
     path_join := join;
     path_dirname := dirname;
     os_homedir := home;
     os_platform := "linux";
     process_cwd := cwd;
     process_platform := "linux";
     process_env := fun name => if String.eqb name "HOME" then Some home else None;
     toLowerCase := lower;
     JSON_parse := parse table;
     JSON_stringify := show;
     YAML_parse := parse table;
     YAML_stringify := fun v => Ok (show v);
     TOML_parse := parse table;
     TOML_stringify := fun v => Ok (show v);
     Edits := string;
     jsonc_parse := parse table;
     jsonc_modify := modify;
     jsonc_applyEdits := fun text edit => Ok (text +:+ edit) |}.

(** A home directory, a working directory and two texts: the literal
    [null] and an object whose only property is an empty [$schema]. *)
Definition quote : string := String "034" EmptyString.

Definition empty_schema_text : string :=
  "{" +:+ quote +:+ "$schema" +:+ quote +:+ ": " +:+ quote +:+ quote +:+ "}".

Definition linux : NodeRuntime :=
  runtime "/home/u" "/work"
    [("null", VNull);
     (empty_schema_text, VObj [("$schema", VStr "")])].
End Demo.

(** * Vocabulary of the statements *)

(** ** Sample data *)

(** The descriptor of the end-to-end example; [main] passes an empty
    [env] record when no variable is given. *)
Definition fs_config : MCPServerConfig :=
  LocalServerConfig "fs" "npx"
    ["-y"; "@modelcontextprotocol/server-filesystem"; "/tmp"] (Some []).

(** The entry of the example in the vocabulary of VS Code, and the
    document that the example leaves in the file. *)
Definition fs_vscode_entry : value :=
  VObj [("type", VStr "stdio");
        ("command", VStr "npx");
        ("args",
         VArr [VStr "-y"; VStr "@modelcontextprotocol/server-filesystem";
               VStr "/tmp"] [])].

Definition fs_document : value :=
  VObj [("servers", VObj [("fs", fs_vscode_entry)])].

Definition fs_entry : value :=
  VObj [("command", VStr "npx"); ("args", VArr [VStr "-y"] [])].

Definition other_entry : value :=
  VObj [("command", VStr "node"); ("args", VArr [VStr "server.js"] [])].

(** An element of the list of Continue. *)
Definition server_named (name command : string) : value :=
  VObj [("name", VStr name); ("type", VStr "stdio");
        ("command", VStr command); ("args", VArr [] [])].



(** A process whose working directory has been removed: [process.cwd()]
    throws. *)
Definition cwd_removed : Process :=
  {| homedir_throws := None;
     cwd_throws := Some (Error "ENOENT: no such file or directory, uv_cwd") |}.

Definition global_scope : AddOptions := {| is_global := true |}.

Definition project_scope : AddOptions := {| is_global := false |}.

(** ** The place of a new array-index key *)

(** An own property whose key is an array index smaller than [n]. *)
Definition index_below (n : N) (kv : string * value) : Prop :=
  exists m, array_index kv.1 = Some m /\ (m < n)%N.

(** The properties do not start with an array index smaller than [n]. *)
Definition starts_at_or_after (n : N) (ps : props) : Prop :=
  match ps with
  | [] => True
  | (k, _) :: _ => forall m, array_index k = Some m -> (n <= m)%N
  end.

(** ** The list of Continue *)

(** The callback of [findIndex] returns [false] on this element. *)
Definition no_match (name : string) (server : value) : Prop :=
  Continue.name_is name server = Ok false.

(** ** Traces *)



(** The paths given to [jsonc.modify], in call order. *)
Definition modified_paths (trace : list call) : list (list string) :=
  omap (fun c => match c with JsoncModify _ p _ => Some p | _ => None end) trace.

(** ** The patches of OpenCode *)



(** The key is among the own properties, whatever its value.  With this
    test a bootstrap key would be set only if absent: *)
Definition has_own_key (existing_config : value) (key : string) : bool :=
  match existing_config with
  | VObj ps | VArr _ ps => bool_decide (is_Some (lookup_prop key ps))
  | _ => false
  end.


Section Vocabulary.
Context {R : NodeRuntime}.

(** What follows is about a process in which [os.homedir()] and
    [process.cwd()] return. *)
#[local] Existing Instance healthy.

(** The parser of each format with the loader that uses it. *)
Definition codecs : list ((string -> result value) * (string -> M value)) :=
  [(JSON_parse, Claude.read_config);
   (JSON_parse, ClaudeCode.read_config);
   (JSON_parse, Cursor.read_config);
   (JSON_parse, VSCode.read_config);
   (JSON_parse, Windsurf.read_config);
   (YAML_parse, Continue.read_config);
   (YAML_parse, Goose.read_config);
   (TOML_parse, Codex.read_config)].

(** The file is not there. *)
Definition missing (config_path : string) (w : World) : Prop :=
  fs_existsSync config_path (files w) = false.

(** The file is there and the parser rejects its text. *)
Definition unparseable (parse : string -> result value) (config_path : string)
    (w : World) : Prop :=
  fs_existsSync config_path (files w) = true /\
  exists content e,
    fs_readFileSync config_path (files w) = Ok content /\ parse content = Throw e.

(** The two results an adapter can return. *)
Definition succeeded (config_path : string) : AddResult :=
  {| success := true; path := config_path; error := None |}.

Definition failed (config_path : string) (e : js_error) : AddResult :=
  {| success := false; path := config_path; error := Some (err_message e) |}.

(** The computation returns in every world. *)
Definition never_throws {A} (m : M A) : Prop :=
  forall w, exists w' a, m w = (w', Ok a).

Definition adapter_never_throws (fn : ClientAddFunction) : Prop :=
  forall config options, never_throws (fn config options).

(** The computation only adds calls to the trace. *)
Definition extends {A} (m : M A) : Prop :=
  forall w, exists more, calls (m w).1 = calls w ++ more.


(** Each operation patches the text that the one before produced. *)
Fixpoint apply_patches (text : string) (operations : list (list string * value))
    : M string :=
  match operations with
  | [] => ret text
  | (at_path, v) :: rest =>
      text' <- OpenCode.modify_and_apply text at_path v ;;
      apply_patches text' rest
  end.



End Vocabulary.

(** * The command line ([src/index.js]) *)

Module Index.
Section Index.

(** [String.prototype.trim], a built-in of the language.  Strings are the
    UTF-8 spellings of the JavaScript strings; the separators [,] and [=]
    are ASCII, so cutting at them cuts at the same places. *)
Variable trim : string -> string.

(** [s.split(separator)] for a one-character separator. *)
Fixpoint split (separator : ascii) (s : string) : list string :=
  match s with
  | EmptyString => [EmptyString]
  | String c rest =>
      if Ascii.eqb c separator then EmptyString :: split separator rest
      else
        match split separator rest with
        | piece :: pieces => String c piece :: pieces
        | [] => [String c EmptyString]
        end
  end.

(** [s.indexOf(c)]: the position of the first [c], or -1. *)
Fixpoint indexOf (c : ascii) (s : string) : Z :=
  match s with
  | EmptyString => (-1)%Z
  | String c' rest =>
      if Ascii.eqb c' c then 0%Z
      else
        let i := indexOf c rest in
        if (i <? 0)%Z then (-1)%Z else (i + 1)%Z
  end.

(** [s.substring(from, to)] and [s.substring(from)], for positions inside
    the string. *)
Definition substring (from to : Z) (s : string) : string :=
  String.substring (Z.to_nat from) (Z.to_nat (to - from)) s.

Definition substring_from (from : Z) (s : string) : string :=
  String.substring (Z.to_nat from) (String.length s - Z.to_nat from) s.

(** [.filter(Boolean)] on strings keeps the non-empty ones. *)
Definition non_empty (s : string) : bool := negb (String.eqb s "").

(** [if (!value) return []; return value.split(',').map((s) => s.trim())
    .filter(Boolean);] where [value] may be [undefined]. *)
Definition parse_comma_separated (value : option string) : list string :=
  match value with
  | None => []
  | Some value =>
      if String.eqb value "" then []
      else filter non_empty (map trim (split "," value))
  end.

(** The body of the loop of [parse_key_value_pairs]:
    [const eq_index = pair.indexOf('=');
     if (eq_index > 0) { const key = pair.substring(0, eq_index).trim();
       const val = pair.substring(eq_index + 1).trim(); result[key] = val; }] *)
Definition assign_pair (result : props) (pair : string) : props :=
  let eq_index := indexOf "=" pair in
  if (0 <? eq_index)%Z then
    let key := trim (substring 0 eq_index pair) in
    let val := trim (substring_from (eq_index + 1) pair) in
    set_own key (VStr val) result
  else result.

(** Returns the own properties of the object [result]. *)
Definition parse_key_value_pairs (value : option string) : props :=
  match value with
  | None => []
  | Some value =>
      if String.eqb value "" then []
      else
        let pairs := filter non_empty (map trim (split "," value)) in
        fold_left assign_pair pairs []
  end.

(** The end of [main] in non-interactive mode: the lines given to
    [console.log], the lines given to [console.error], and whether
    [process.exit(1)] is called.
    [const successful = results.filter((r) => r.success);
     const failed = results.filter((r) => !r.success);
     for (const result of successful) console.log(`${result.client}: ${result.path}`);
     for (const result of failed) console.error(`${result.client}: ${result.error}`);
     if (failed.length > 0) process.exit(1);] *)
Definition report (results : list Main.ClientResult)
    : list string * list string * bool :=
  let successful := filter (fun r => success (Main.outcome r)) results in
  let failed := filter (fun r => negb (success (Main.outcome r))) results in
  (map (fun r => Main.client r +:+ ": " +:+ path (Main.outcome r)) successful,
   map (fun r => Main.client r +:+ ": "
                 +:+ default "undefined" (error (Main.outcome r))) failed,
   negb (Nat.eqb (length failed) 0)).

Context {R : NodeRuntime} {P : Process}.
Variables add_to_copilot_cli add_to_gemini : ClientAddFunction.

(** [let selected_clients = [];
    if (argv.clients !== undefined) selected_clients =
      parse_comma_separated(argv.clients).filter((c) =>
        client_names.includes(c.toLowerCase()));] *)
Definition selected_from_arguments (clients_argument : option string)
    : list string :=
  match clients_argument with
  | None => []
  | Some _ =>
      filter (Clients.is_client_name add_to_copilot_cli add_to_gemini)
        (parse_comma_separated clients_argument)
  end.

(** The options read from the command line; an option that was not given
    is [undefined]. *)
Record Argv : Type := {
  argv_name : option string;
  argv_type : option string;
  argv_command : option string;
  argv_env : option string;
  argv_url : option string;
  argv_headers : option string;
  argv_scope : option string;
  argv_clients : option string
}.

(** Truthiness of a [string | undefined]. *)
Definition given (option_value : option string) : bool :=
  match option_value with
  | Some s => non_empty s
  | None => false
  end.

(** [option_value === text] *)
Definition is_text (option_value : option string) (text : string) : bool :=
  match option_value with
  | Some s => String.eqb s text
  | None => false
  end.

(** [if (!argv.name || !argv.type || !argv.scope || !argv.clients) return false;
    if (argv.type === 'stdio' && !argv.command) return false;
    if (argv.type === 'http' && !argv.url) return false;
    return true;] *)
Definition can_run_non_interactive (argv : Argv) : bool :=
  if negb (given (argv_name argv)) || negb (given (argv_type argv))
     || negb (given (argv_scope argv)) || negb (given (argv_clients argv))
  then false
  else if is_text (argv_type argv) "stdio" && negb (given (argv_command argv))
  then false
  else if is_text (argv_type argv) "http" && negb (given (argv_url argv))
  then false
  else true.

(** The prompts of [main]. *)
Inductive question : Type :=
| AskName | AskType | AskCommand | AskEnv | AskUrl | AskHeaders | AskScope
| AskClients.

(** The prompts that [main] shows, in their order, when none of them is
    cancelled (a cancelled prompt ends the process); [type_input] is the
    answer to the prompt for the type, which selects the branch taken when
    the option is missing.  Each prompt is guarded as in the source:
    [if (!name)], [if (!type)], then under [if (type === 'stdio')] the
    guards [if (!full_command)] and [if (argv.env !== undefined) ... else
    if (is_interactive)], otherwise [if (!url)] and the same for the
    headers, then [if (!scope)] and [if (selected_clients.length === 0)]. *)
Definition questions (argv : Argv) (type_input : string) : list question :=
  let is_interactive := negb (can_run_non_interactive argv) in
  let type :=
    if given (argv_type argv) then default type_input (argv_type argv)
    else type_input in
  (if given (argv_name argv) then [] else [AskName])
  ++ (if given (argv_type argv) then [] else [AskType])
  ++ (if String.eqb type "stdio" then
        (if given (argv_command argv) then [] else [AskCommand])
        ++ match argv_env argv with
           | Some _ => []
           | None => if is_interactive then [AskEnv] else []
           end
      else
        (if given (argv_url argv) then [] else [AskUrl])
        ++ match argv_headers argv with
           | Some _ => []
           | None => if is_interactive then [AskHeaders] else []
           end)
  ++ (if given (argv_scope argv) then [] else [AskScope])
  ++ match selected_from_arguments (argv_clients argv) with
     | [] => [AskClients]
     | _ :: _ => []
     end.
End Index.
End Index.

(** A [trim] for examples: it removes the spaces (U+0020) at both ends. *)
Fixpoint drop_spaces (s : string) : string :=
  match s with
  | String " " rest => drop_spaces rest
  | _ => s
  end.

Definition trim_spaces (s : string) : string :=
  let reversed := String.rev (drop_spaces s) in
  String.rev (drop_spaces reversed).

(** A runtime for examples in which no directory can be created and the
    YAML and TOML serialisers reject every document; the rest is as in
    [Demo.linux]. *)
Definition hostile : NodeRuntime :=
  {| FS := list (string * Demo.node);
     fs_existsSync := Demo.exists_;
     fs_readFileSync := Demo.read;
     fs_mkdirSync :=
       fun _ fs => (fs, Throw (Error "EACCES: permission denied, mkdir"));
     fs_writeFileSync := Demo.write;
     path_join := Demo.join;
     path_dirname := Demo.dirname;
     os_homedir := "/home/u";
     os_platform := "linux";
     process_cwd := "/work";
     process_platform := "linux";
     process_env :=
       fun name => if String.eqb name "HOME" then Some "/home/u" else None;
     toLowerCase := Demo.lower;
     JSON_parse := Demo.parse [];
     JSON_stringify := Demo.show;
     YAML_parse := Demo.parse [];
     YAML_stringify := fun _ => Throw (Error "Cannot stringify the document");
     TOML_parse := Demo.parse [];
     TOML_stringify := fun _ => Throw (Error "Cannot stringify the document");
     Edits := string;
     jsonc_parse := Demo.parse [];
     jsonc_modify := Demo.modify;
     jsonc_applyEdits := fun text edit => Ok (text +:+ edit) |}.

(** The document that the example descriptor leaves in the file of Cursor,
    and a runtime whose [JSON.parse] reads back the text that
    [JSON.stringify] gives for it. *)
Definition fs_cursor_document : value :=
  VObj [("mcpServers",
         VObj [("fs",
                VObj [("command", VStr "npx");
                      ("args",
                       VArr [VStr "-y";
                             VStr "@modelcontextprotocol/server-filesystem";
                             VStr "/tmp"] [])])])].

Definition remembering : NodeRuntime :=
  Demo.runtime "/home/u" "/work"
    [(Demo.show fs_cursor_document +:+ newline, fs_cursor_document)].

(** * Vocabulary of the further statements *)

(** The adapters that test the tag ['stdio'], each with the name it gives
    to the [env] record. *)
Definition local_env_fields : list ((MCPServerConfig -> value) * string) :=
  [(Claude.transform_config, "env");
   (ClaudeCode.transform_config, "env");
   (Cursor.transform_config, "env");
   (VSCode.transform_config, "env");
   (Continue.transform_config, "env");
   (Goose.transform_config, "envs");
   (OpenCode.transform_config, "environment")].

(** Every adapter with the names it gives to the URL and to the [headers]
    record of a remote descriptor. *)
Definition remote_fields : list ((MCPServerConfig -> value) * (string * string)) :=
  [(Claude.transform_config, ("url", "headers"));
   (ClaudeCode.transform_config, ("url", "headers"));
   (Cursor.transform_config, ("url", "headers"));
   (VSCode.transform_config, ("url", "headers"));
   (Windsurf.transform_config, ("serverUrl", "headers"));
   (Continue.transform_config, ("url", "headers"));
   (Goose.transform_config, ("url", "headers"));
   (OpenCode.transform_config, ("url", "headers"));
   (Codex.transform_config, ("url", "http_headers"))].

(** The record as it appears in an entry: only when it has a key. *)
Definition attached (r : option (list (string * string))) : option value :=
  match r with
  | Some (_ :: _) => Some (record_value r)
  | _ => None
  end.

(** The own properties of an entry. *)
Definition entry_props (entry : value) : props :=
  match entry with VObj ps => ps | _ => [] end.

Definition local_only_fields : list string :=
  ["command"; "cmd"; "args"; "env"; "envs"; "environment"].

Definition remote_only_fields : list string :=
  ["url"; "serverUrl"; "headers"; "http_headers"].

(** The container keys of the mapping-shaped adapters. *)
Definition container_keys : list string :=
  ["mcpServers"; "servers"; "mcp_servers"; "extensions"].

(** A primitive value: neither an object nor an array. *)
Definition is_primitive (v : value) : bool :=
  match v with VObj _ | VArr _ _ => false | _ => true end.

Definition is_type_error {A} (r : result A) : bool :=
  match r with Throw (TypeError _) => true | _ => false end.

(** The path that a path resolution returns (in the process [healthy]
    every resolution returns one). *)
Definition resolved (resolution : result string) : string :=
  match resolution with
  | Ok config_path => config_path
  | Throw _ => EmptyString
  end.

(** A call that is not a write and is not [mkdirSync] on a path other than
    [dir] (the call is made with [{ recursive: true }], so it also creates
    the ancestors of [dir] that are missing). *)
Definition quiet_call (dir : string) (c : call) : bool :=
  match c with
  | WriteFileSync _ _ => false
  | MkdirSync d => String.eqb d dir
  | _ => true
  end.

(** The trace writes at most once, to [p] and as its last call, and calls
    [mkdirSync] on no path but [dir]. *)
Fixpoint disciplined (dir p : string) (trace : list call) : bool :=
  match trace with
  | [] => true
  | [WriteFileSync q _] => String.eqb q p
  | c :: rest => quiet_call dir c && disciplined dir p rest
  end.

Section Vocabulary2.
Context {R : NodeRuntime}.

(** What follows is about a process in which [os.homedir()] and
    [process.cwd()] return. *)
#[local] Existing Instance healthy.

(** The loaders that put [{}] in the place of a falsy parse. *)
Definition recovering_loaders : list (string -> M value) :=
  [Continue.read_config; Goose.read_config;
   fun config_path => loaded <- OpenCode.read_config config_path ;; ret loaded.2].

(** The adapters whose first step ensures the directory, each at the scopes
    where it does so, with the path it resolves, in a process in which
    [os.homedir()] and [process.cwd()] return. *)
Definition located_runs (config : MCPServerConfig)
    : list (M AddResult * string) :=
  [(Claude.add_to_claude config global_scope,
    resolved Claude.get_config_path);
   (Claude.add_to_claude config project_scope,
    resolved Claude.get_config_path);
   (ClaudeCode.add_to_claude_code config global_scope,
    resolved (ClaudeCode.get_config_path true));
   (Cursor.add_to_cursor config global_scope,
    resolved (Cursor.get_config_path true));
   (Cursor.add_to_cursor config project_scope,
    resolved (Cursor.get_config_path false));
   (VSCode.add_to_vscode config global_scope,
    resolved (VSCode.get_config_path true));
   (VSCode.add_to_vscode config project_scope,
    resolved (VSCode.get_config_path false));
   (Windsurf.add_to_windsurf config global_scope,
    resolved Windsurf.get_config_path);
   (Windsurf.add_to_windsurf config project_scope,
    resolved Windsurf.get_config_path);
   (Continue.add_to_continue config global_scope,
    resolved (Continue.get_config_path true));
   (Continue.add_to_continue config project_scope,
    resolved (Continue.get_config_path false));
   (Goose.add_to_goose config global_scope, resolved Goose.get_config_path);
   (Goose.add_to_goose config project_scope, resolved Goose.get_config_path);
   (Codex.add_to_codex config global_scope, resolved Codex.get_config_path);
   (Codex.add_to_codex config project_scope, resolved Codex.get_config_path)].

(** The adapters that write YAML or TOML, each with its serialiser, in a
    process in which [os.homedir()] and [process.cwd()] return. *)
Definition serialising_runs (config : MCPServerConfig)
    : list (M AddResult * (value -> result string)) :=
  [(Continue.add_to_continue config global_scope, YAML_stringify);
   (Continue.add_to_continue config project_scope, YAML_stringify);
   (Goose.add_to_goose config global_scope, YAML_stringify);
   (Goose.add_to_goose config project_scope, YAML_stringify);
   (Codex.add_to_codex config global_scope, TOML_stringify);
   (Codex.add_to_codex config project_scope, TOML_stringify)].

(** The computation adds only quiet calls to the trace. *)
Definition quiet (dir : string) {A} (m : M A) : Prop :=
  forall w, exists more,
    calls (m w).1 = calls w ++ more /\ forallb (quiet_call dir) more = true.

(** The computation adds quiet calls and then either throws without a
    write or ends with one write to [p]. *)
Definition saves (dir p : string) {A} (m : M A) : Prop :=
  forall w, exists more,
    forallb (quiet_call dir) more = true /\
    ((calls (m w).1 = calls w ++ more /\ exists e, (m w).2 = Throw e) \/
     exists data, calls (m w).1 = calls w ++ more ++ [WriteFileSync p data]).
(** The computation adds only quiet calls and throws. *)
Definition fails_quietly (dir : string) {A} (m : M A) : Prop :=
  forall w, exists more e,
    calls (m w).1 = calls w ++ more /\
    forallb (quiet_call dir) more = true /\ (m w).2 = Throw e.
End Vocabulary2.

Section Vocabulary3.
Context {R : NodeRuntime} {P : Process}.

(** Every adapter at hand at both scopes, in any process. *)
Definition adapter_runs (config : MCPServerConfig) : list (M AddResult) :=
  [Claude.add_to_claude config global_scope;
   Claude.add_to_claude config project_scope;
   ClaudeCode.add_to_claude_code config global_scope;
   ClaudeCode.add_to_claude_code config project_scope;
   Cursor.add_to_cursor config global_scope;
   Cursor.add_to_cursor config project_scope;
   Continue.add_to_continue config global_scope;
   Continue.add_to_continue config project_scope;
   Windsurf.add_to_windsurf config global_scope;
   Windsurf.add_to_windsurf config project_scope;
   OpenCode.add_to_opencode config global_scope;
   OpenCode.add_to_opencode config project_scope;
   VSCode.add_to_vscode config global_scope;
   VSCode.add_to_vscode config project_scope;
   Goose.add_to_goose config global_scope;
   Goose.add_to_goose config project_scope;
   Codex.add_to_codex config global_scope;
   Codex.add_to_codex config project_scope].

(** The error is what one of the two calls throws in this process. *)
Definition thrown_by_a_call (e : js_error) : Prop :=
  homedir_throws = Some e \/ cwd_throws = Some e.
End Vocabulary3.

(** What [parse_key_value_pairs] builds: string values, and no own property
    named [__proto__]. *)
Definition strings_only (ps : props) : Prop :=
  Forall (fun kv => exists s, kv.2 = VStr s) ps /\ lookup_prop "__proto__" ps = None.

(** * Properties *)

(** ** Own-property lists *)

Lemma lookup_replace_same k v ps :
  is_Some (lookup_prop k ps) -> lookup_prop k (replace_prop k v ps) = Some v.
Proof.
  induction ps as [|[k' v'] ps IH]; simpl; intros [x Hx]; [discriminate|].
  destruct (String.eqb k k') eqn:E; simpl; rewrite E; [done|].
  apply IH. by exists x.
Qed.

Lemma lookup_replace_other k k' v ps :
  k' <> k -> lookup_prop k' (replace_prop k v ps) = lookup_prop k' ps.
Proof.
  intros Hne. induction ps as [|[k0 v0] ps IH]; simpl; [done|].
  destruct (String.eqb k k0) eqn:E; simpl.
  - apply String.eqb_eq in E. subst k0.
    destruct (String.eqb k' k) eqn:E'; [|done].
    apply String.eqb_eq in E'. contradiction.
  - by rewrite IH.
Qed.

Lemma keys_replace k v ps : keys (replace_prop k v ps) = keys ps.
Proof.
  unfold keys. induction ps as [|[k' v'] ps IH]; simpl; [done|].
  destruct (String.eqb k k'); simpl; [done|]. by rewrite IH.
Qed.

Lemma replace_replace k v ps :
  replace_prop k v (replace_prop k v ps) = replace_prop k v ps.
Proof.
  induction ps as [|[k' v'] ps IH]; simpl; [done|].
  destruct (String.eqb k k') eqn:E; simpl; rewrite E; [done|]. by rewrite IH.
Qed.

Lemma replace_absent k v ps :
  lookup_prop k ps = None -> replace_prop k v ps = ps.
Proof.
  induction ps as [|[k' v'] ps IH]; simpl; [done|].
  destruct (String.eqb k k'); [discriminate|]. intros H. by rewrite IH.
Qed.

Lemma lookup_app k ps qs :
  lookup_prop k (ps ++ qs) =
  match lookup_prop k ps with Some v => Some v | None => lookup_prop k qs end.
Proof.
  induction ps as [|[k' v'] ps IH]; simpl; [done|].
  by destruct (String.eqb k k').
Qed.

Lemma replace_app_absent k v ps qs :
  lookup_prop k ps = None ->
  replace_prop k v (ps ++ qs) = ps ++ replace_prop k v qs.
Proof.
  induction ps as [|[k' v'] ps IH]; simpl; [done|].
  destruct (String.eqb k k'); [discriminate|]. intros H. by rewrite IH.
Qed.

(** A created property sits between two parts of the old list, which keep
    their order. *)
Lemma insert_index_split n k v ps :
  exists before after,
    ps = before ++ after /\ insert_index_prop n k v ps = before ++ (k, v) :: after.
Proof.
  induction ps as [|[k' v'] ps (before & after & Hps & Hins)]; simpl.
  - by exists [], [].
  - destruct (array_index k') as [m|].
    + destruct (m <? n)%N.
      * exists ((k', v') :: before), after. simpl. by rewrite <- Hps, Hins.
      * by exists [], ((k', v') :: ps).
    + by exists [], ((k', v') :: ps).
Qed.

(** A created array-index property sits after the leading array-index
    properties with a smaller index and before the first property that is
    not one of them. *)
Lemma insert_index_position n k v ps :
  exists before after,
    ps = before ++ after /\
    insert_index_prop n k v ps = before ++ (k, v) :: after /\
    Forall (index_below n) before /\
    starts_at_or_after n after.
Proof.
  induction ps as [|[k' v'] ps (before & after & Hps & Hins & Hbefore & Hafter)];
    simpl.
  - by exists [], [].
  - destruct (array_index k') as [m|] eqn:Hk'.
    + destruct (m <? n)%N eqn:Hm.
      * exists ((k', v') :: before), after. simpl. rewrite <- Hps, Hins.
        repeat split; try done. constructor; [|done].
        exists m. split; [done|]. by apply N.ltb_lt.
      * exists [], ((k', v') :: ps). repeat split; try done.
        simpl. intros m'. rewrite Hk'. intros [= <-]. by apply N.ltb_ge.
    + exists [], ((k', v') :: ps). repeat split; try done.
      simpl. intros m'. by rewrite Hk'.
Qed.

Lemma define_split k v ps :
  exists before after,
    ps = before ++ after /\ define_prop k v ps = before ++ (k, v) :: after.
Proof.
  unfold define_prop. destruct (array_index k).
  - apply insert_index_split.
  - exists ps, []. by rewrite app_nil_r.
Qed.

Lemma lookup_define k v ps :
  lookup_prop k ps = None -> lookup_prop k (define_prop k v ps) = Some v.
Proof.
  intros Hn. destruct (define_split k v ps) as (before & after & Hps & ->).
  rewrite lookup_app. subst ps. rewrite lookup_app in Hn.
  destruct (lookup_prop k before); [discriminate|].
  simpl. by rewrite String.eqb_refl.
Qed.

Lemma replace_define k v ps :
  lookup_prop k ps = None ->
  replace_prop k v (define_prop k v ps) = define_prop k v ps.
Proof.
  intros Hn. destruct (define_split k v ps) as (before & after & Hps & ->).
  subst ps. rewrite lookup_app in Hn.
  destruct (lookup_prop k before) eqn:Hb; [discriminate|].
  rewrite replace_app_absent by done. simpl. by rewrite String.eqb_refl.
Qed.

Lemma set_own_idempotent k v ps : set_own k v (set_own k v ps) = set_own k v ps.
Proof.
  unfold set_own. destruct (lookup_prop k ps) eqn:Hl.
  - rewrite lookup_replace_same by eauto. apply replace_replace.
  - destruct (String.eqb k "__proto__") eqn:Hp.
    + by rewrite Hl.
    + rewrite lookup_define by done. by apply replace_define.
Qed.

Lemma set_own_present k v ps :
  is_Some (lookup_prop k ps) -> set_own k v ps = replace_prop k v ps.
Proof. intros [x Hx]. unfold set_own. by rewrite Hx. Qed.

Lemma set_elem_idempotent n v es : set_elem n v (set_elem n v es) = set_elem n v es.
Proof.
  unfold set_elem at 2. destruct (decide (n < length es)) as [Hlt|Hge].
  - unfold set_elem. rewrite length_insert.
    destruct (decide (n < length es)); [|lia]. apply list_insert_insert_eq.
  - unfold set_elem.
    rewrite !length_app, length_replicate. simpl.
    destruct (decide (n < length es + (n - length es + 1))); [|lia].
    rewrite app_assoc.
    assert (Hn : n = length (es ++ replicate (n - length es) VUndefined) + 0).
    { rewrite length_app, length_replicate. lia. }
    rewrite Hn at 1. rewrite insert_app_r. simpl.
    destruct (decide (n < length es)); [lia|done].
Qed.

(** Assigning the same value under the same key a second time changes
    nothing. *)
Lemma set_prop_idempotent target k v target' :
  set_prop target k v = Ok target' -> set_prop target' k v = Ok target'.
Proof.
  destruct target; simpl; try discriminate.
  - destruct (array_index k) eqn:Hi.
    + intros [= <-]. simpl. rewrite Hi. by rewrite set_elem_idempotent.
    + destruct (String.eqb k "length") eqn:Hlen; [discriminate|].
      intros [= <-]. simpl. rewrite Hi, Hlen. by rewrite set_own_idempotent.
  - intros [= <-]. simpl. by rewrite set_own_idempotent.
Qed.

Lemma nth_set_elem n v es : nth n (set_elem n v es) VUndefined = v.
Proof.
  unfold set_elem. destruct (decide (n < length es)) as [Hlt|Hge].
  - apply nth_lookup_Some with (d := VUndefined). by apply list_lookup_insert_eq.
  - rewrite app_assoc, app_nth2; rewrite length_app, length_replicate; [|lia].
    by replace (n - (length es + (n - length es))) with 0 by lia.
Qed.

(** Reading back the key that was just assigned. *)
Lemma get_set_prop target k v target' :
  set_prop target k v = Ok target' ->
  get_prop target' k = Ok v \/
  (target' = target /\ k = "__proto__" /\ get_prop target k = Ok VUndefined).
Proof.
  destruct target as [| |b|x|s|es ps|ps]; simpl; try discriminate.
  - destruct (array_index k) eqn:Hi.
    + intros [= <-]. simpl. rewrite Hi. left. by rewrite nth_set_elem.
    + destruct (String.eqb k "length") eqn:Hlen; [discriminate|].
      intros [= <-]. simpl. rewrite Hi, Hlen. unfold set_own.
      destruct (lookup_prop k ps) eqn:Hl.
      * left. by rewrite lookup_replace_same by eauto.
      * destruct (String.eqb k "__proto__") eqn:Hp.
        -- right. by apply String.eqb_eq in Hp.
        -- left. by rewrite lookup_define.
  - intros [= <-]. simpl. unfold set_own.
    destruct (lookup_prop k ps) eqn:Hl.
    + left. by rewrite lookup_replace_same by eauto.
    + destruct (String.eqb k "__proto__") eqn:Hp.
      * right. by apply String.eqb_eq in Hp.
      * left. by rewrite lookup_define.
Qed.

Lemma set_prop_truthy target k v target' :
  set_prop target k v = Ok target' -> truthy target' = true.
Proof.
  destruct target as [| |b|x|s|es ps|ps]; simpl; try discriminate.
  - destruct (array_index k); [by intros [= <-]|].
    destruct (String.eqb k "length"); [discriminate|]. by intros [= <-].
  - by intros [= <-].
Qed.

(** ** Idempotence of the mapping-by-name upsert *)

Lemma upsert_server_idempotent key existing_config name entry updated :
  upsert_server key existing_config name entry = Ok updated ->
  upsert_server key updated name entry = Ok updated.
Proof.
  unfold upsert_server.
  destruct (get_prop existing_config key) as [container|] eqn:Hc; simpl; [|done].
  destruct (if negb (truthy container) then set_prop existing_config key (VObj [])
            else Ok existing_config) as [doc1|] eqn:Hdoc1; simpl; [|done].
  destruct (get_prop doc1 key) as [mcp_servers|] eqn:Hm; simpl; [|done].
  destruct (set_prop mcp_servers name entry) as [mcp_servers'|] eqn:Hset; simpl; [|done].
  intros Hback.
  destruct (get_set_prop _ _ _ _ Hback) as [Hget|(-> & _ & Hundef)].
  - rewrite Hget. simpl.
    rewrite (set_prop_truthy _ _ _ _ Hset). simpl. rewrite Hget. simpl.
    rewrite (set_prop_idempotent _ _ _ _ Hset). simpl.
    by apply set_prop_idempotent in Hback.
  - rewrite Hundef in Hm. injection Hm as <-. discriminate.
Qed.

(** ** The list upsert of Continue *)

Lemma find_index_found name before server after i :
  Forall (no_match name) before ->
  Continue.name_is name server = Ok true ->
  Continue.find_index_from name (before ++ server :: after) i
  = Ok (i + Z.of_nat (length before))%Z.
Proof.
  intros Hb Hs. revert i. induction Hb as [|x before Hx Hb IH]; intros i; simpl.
  - rewrite Hs. simpl. f_equal. lia.
  - rewrite Hx. simpl. rewrite IH. f_equal. lia.
Qed.

Lemma find_index_none name servers i :
  Forall (no_match name) servers ->
  Continue.find_index_from name servers i = Ok (-1)%Z.
Proof.
  intros H. revert i. induction H as [|x l Hx Hl IH]; intros i; simpl; [done|].
  rewrite Hx. simpl. apply IH.
Qed.

(** What a successful scan says about the list. *)
Lemma find_index_inv name servers i j :
  (0 <= i)%Z ->
  Continue.find_index_from name servers i = Ok j ->
  (j = (-1)%Z /\ Forall (no_match name) servers) \/
  (exists before server after,
      servers = before ++ server :: after /\ Forall (no_match name) before /\
      Continue.name_is name server = Ok true /\
      j = (i + Z.of_nat (length before))%Z).
Proof.
  revert i. induction servers as [|x l IH]; intros i Hi; simpl.
  - intros [= <-]. by left.
  - destruct (Continue.name_is name x) as [[|]|] eqn:Hx; simpl; [| |done].
    + intros [= <-]. right. exists [], x, l. simpl. repeat split; [done..|lia].
    + intros Hrest. apply IH in Hrest; [|lia].
      destruct Hrest as [[-> Hall]|(before & server & after & -> & Hb & Hs & ->)].
      * left. split; [done|]. by constructor.
      * right. exists (x :: before), server, after. simpl.
        repeat split; [by constructor|done|lia].
Qed.

Lemma set_elem_middle (before after : list value) old new :
  set_elem (length before) new (before ++ old :: after) = before ++ new :: after.
Proof.
  unfold set_elem. rewrite length_app. simpl.
  destruct (decide (length before < length before + S (length after))); [|lia].
  replace (length before) with (length before + 0) at 1 by lia.
  by rewrite insert_app_r.
Qed.

Lemma name_is_transform config :
  Continue.name_is (config_name config) (Continue.transform_config config) = Ok true.
Proof.
  unfold Continue.name_is, Continue.transform_config.
  destruct (String.eqb (config_type config) "stdio"); simpl;
    by rewrite String.eqb_refl.
Qed.

(** After one application the scan finds the new element, and putting it
    there again changes nothing. *)
Lemma replace_or_push_idempotent mcp_servers config i updated :
  Continue.findIndex mcp_servers (config_name config) = Ok i ->
  Continue.replace_or_push mcp_servers i (Continue.transform_config config) = Ok updated ->
  exists j, (0 <= j)%Z /\
    Continue.findIndex updated (config_name config) = Ok j /\
    Continue.replace_or_push updated j (Continue.transform_config config) = Ok updated.
Proof.
  destruct mcp_servers as [| |b|x|s|servers named|ps]; simpl; try discriminate.
  intros Hfind. apply find_index_inv in Hfind; [|lia].
  destruct Hfind as [[-> Hall]|(before & server & after & -> & Hb & Hs & ->)]; simpl.
  - intros [= <-]. exists (Z.of_nat (length servers)). split; [lia|]. simpl.
    rewrite find_index_found by (done || apply name_is_transform). split; [done|].
    assert (E : (0 <=? Z.of_nat (length servers))%Z = true) by (apply Z.leb_le; lia).
    rewrite E.
    rewrite Nat2Z.id. by rewrite set_elem_middle.
  - assert (E : (0 <=? Z.of_nat (length before))%Z = true) by (apply Z.leb_le; lia).
    rewrite Z.add_0_l, E.
    rewrite Nat2Z.id, set_elem_middle. intros [= <-].
    exists (Z.of_nat (length before)). split; [lia|]. simpl.
    rewrite find_index_found by (done || apply name_is_transform). split; [done|].
    rewrite ?Z.add_0_l, E, Nat2Z.id. by rewrite set_elem_middle.
Qed.

Lemma upsert_server_in_list_idempotent existing_config config updated :
  Continue.upsert_server_in_list existing_config config = Ok updated ->
  Continue.upsert_server_in_list updated config = Ok updated.
Proof.
  unfold Continue.upsert_server_in_list.
  destruct (get_prop existing_config "mcpServers") as [container|] eqn:Hc; simpl; [|done].
  destruct (if negb (truthy container)
            then set_prop existing_config "mcpServers" (VArr [] [])
            else Ok existing_config) as [doc1|] eqn:Hdoc1; simpl; [|done].
  destruct (get_prop doc1 "mcpServers") as [mcp_servers|] eqn:Hm; simpl; [|done].
  destruct (Continue.findIndex mcp_servers (config_name config)) as [i|] eqn:Hi;
    simpl; [|done].
  destruct (Continue.replace_or_push mcp_servers i (Continue.transform_config config))
    as [mcp_servers'|] eqn:Hrep; simpl; [|done].
  intros Hback.
  destruct (replace_or_push_idempotent _ _ _ _ Hi Hrep) as (j & Hj & Hfind & Hrep').
  destruct (get_set_prop _ _ _ _ Hback) as [Hget|(_ & Hk & _)]; [|discriminate].
  rewrite Hget. simpl.
  assert (Ht : truthy mcp_servers' = true).
  { destruct mcp_servers; try discriminate. simpl in Hrep.
    by destruct (0 <=? i)%Z; injection Hrep as <-. }
  rewrite Ht. simpl. rewrite Hget. simpl. rewrite Hfind. simpl. rewrite Hrep'. simpl.
  by apply set_prop_idempotent in Hback.
Qed.

(** ** The entries built for a local descriptor *)

(** C1 (the code departs from it): for every Local descriptor, whose type
    tag is ['stdio'], [transform_config] of Windsurf and of Codex tests the
    tag against ['local'], takes the remote branch and returns an entry
    whose only property is [serverUrl] (Windsurf) or [url] (Codex), set to
    [undefined]; the fields [command], [args] and [env] are absent.  The
    Cursor adapter, which builds the same local shape but tests ['stdio'],
    returns [command], [args] and the non-empty [env]. *)
Theorem local_descriptor_in_windsurf_and_codex name command args env :
  let config := LocalServerConfig name command args env in
  Windsurf.transform_config config = VObj [("serverUrl", VUndefined)] /\
  Codex.transform_config config = VObj [("url", VUndefined)] /\
  Cursor.transform_config config =
    VObj ([("command", VStr command); ("args", VArr (map VStr args) [])]
          ++ optional_record "env" (record_value env)).
Proof. done. Qed.

Example windsurf_entry_of_fs_config :
  Windsurf.transform_config fs_config = VObj [("serverUrl", VUndefined)].
Proof. reflexivity. Qed.

(** ** Idempotence *)

(** C2: applying the upsert twice yields the same document as applying it
    once.  Mapping by name: the document after the second application is
    the document after the first.  List with name field: the second
    application finds the element at a non-negative index, so it takes the
    replacing branch and nothing is appended, and the document is the
    same. *)
Theorem upsert_twice_is_upsert_once :
  (forall key existing_config name entry updated,
      upsert_server key existing_config name entry = Ok updated ->
      upsert_server key updated name entry = Ok updated) /\
  (forall existing_config config updated,
      Continue.upsert_server_in_list existing_config config = Ok updated ->
      Continue.upsert_server_in_list updated config = Ok updated /\
      exists mcp_servers j,
        get_prop updated "mcpServers" = Ok mcp_servers /\
        Continue.findIndex mcp_servers (config_name config) = Ok j /\
        (0 <= j)%Z /\
        Continue.replace_or_push mcp_servers j (Continue.transform_config config)
        = Ok mcp_servers).
Proof.
  split.
  - apply upsert_server_idempotent.
  - intros existing_config config updated Hup. split.
    + by apply (upsert_server_in_list_idempotent existing_config).
    + revert Hup. unfold Continue.upsert_server_in_list.
      destruct (get_prop existing_config "mcpServers") as [container|]; simpl; [|done].
      destruct (if negb (truthy container)
                then set_prop existing_config "mcpServers" (VArr [] [])
                else Ok existing_config) as [doc1|]; simpl; [|done].
      destruct (get_prop doc1 "mcpServers") as [mcp_servers|]; simpl; [|done].
      destruct (Continue.findIndex mcp_servers (config_name config)) as [i|] eqn:Hi;
        simpl; [|done].
      destruct (Continue.replace_or_push mcp_servers i (Continue.transform_config config))
        as [mcp_servers'|] eqn:Hrep; simpl; [|done].
      intros Hback.
      destruct (replace_or_push_idempotent _ _ _ _ Hi Hrep) as (j & Hj & Hfind & Hrep').
      destruct (get_set_prop _ _ _ _ Hback) as [Hget|(_ & Hk & _)]; [|discriminate].
      by exists mcp_servers', j.
Qed.

Lemma upsert_twice_is_upsert_once_witness :
  upsert_server "mcpServers"
    (VObj [("theme", VStr "dark"); ("mcpServers", VObj [("fs", fs_entry)])])
    "fs" fs_entry
  = Ok (VObj [("theme", VStr "dark"); ("mcpServers", VObj [("fs", fs_entry)])]) /\
  Continue.upsert_server_in_list
    (VObj [("mcpServers", VArr [Continue.transform_config fs_config] [])]) fs_config
  = Ok (VObj [("mcpServers", VArr [Continue.transform_config fs_config] [])]).
Proof.
  split.
  - apply (proj1 upsert_twice_is_upsert_once "mcpServers"
             (VObj [("theme", VStr "dark")]) "fs" fs_entry).
    reflexivity.
  - apply (proj2 upsert_twice_is_upsert_once (VObj []) fs_config).
    reflexivity.
Defined.

(** ** The mapping-by-name upsert leaves the rest alone *)

Lemma upsert_server_present key document container name entry :
  lookup_prop key document = Some (VObj container) ->
  upsert_server key (VObj document) name entry
  = Ok (VObj (replace_prop key (VObj (set_own name entry container)) document)).
Proof.
  intros Hc. unfold upsert_server. simpl. rewrite Hc. simpl. rewrite Hc. simpl.
  by rewrite set_own_present by eauto.
Qed.

(** C5 (as amended): in a mapping-shaped container that already holds an
    entry named X, the upsert sets container[X] to the new value at the place
    X had; every other key keeps its value and the keys keep their order.  A
    new key that is neither an array index nor [__proto__] is appended at
    the end.  A new key that is an array index is put between two parts of
    the old list, which keep their order: after the leading array-index
    keys whose index is smaller than its own, and before the first key
    that is not one of them. *)
Theorem upsert_server_frame key document container name entry :
  lookup_prop key document = Some (VObj container) ->
  exists container',
    upsert_server key (VObj document) name entry
    = Ok (VObj (replace_prop key (VObj container') document)) /\
    (is_Some (lookup_prop name container) ->
       container' = replace_prop name entry container /\
       keys container' = keys container /\
       lookup_prop name container' = Some entry /\
       forall k, k <> name -> lookup_prop k container' = lookup_prop k container) /\
    (lookup_prop name container = None ->
     array_index name = None -> name <> "__proto__" ->
       container' = container ++ [(name, entry)]) /\
    (lookup_prop name container = None -> name <> "__proto__" ->
       exists before after,
         container = before ++ after /\
         container' = before ++ (name, entry) :: after) /\
    (forall n,
       lookup_prop name container = None -> array_index name = Some n ->
       exists before after,
         container = before ++ after /\
         container' = before ++ (name, entry) :: after /\
         Forall (index_below n) before /\
         starts_at_or_after n after).
Proof.
  intros Hc. exists (set_own name entry container).
  split; [by apply upsert_server_present|].
  unfold set_own. split; [|split; [|split]].
  - intros [old Hold]. rewrite Hold. split; [done|]. split; [apply keys_replace|].
    split; [apply lookup_replace_same; eauto|].
    intros k Hk. by apply lookup_replace_other.
  - intros Hnew Hidx Hproto. rewrite Hnew.
    apply String.eqb_neq in Hproto. rewrite Hproto.
    unfold define_prop. by rewrite Hidx.
  - intros Hnew Hproto. rewrite Hnew.
    apply String.eqb_neq in Hproto. rewrite Hproto. apply define_split.
  - intros n Hnew Hidx. rewrite Hnew.
    assert (Hproto : String.eqb name "__proto__" = false).
    { apply String.eqb_neq. by intros ->. }
    rewrite Hproto. unfold define_prop. rewrite Hidx.
    apply insert_index_position.
Qed.

Lemma upsert_server_frame_witness :
  exists container',
    upsert_server "mcpServers"
      (VObj [("mcpServers", VObj [("a", other_entry); ("fs", other_entry)])])
      "fs" fs_entry
    = Ok (VObj [("mcpServers", VObj container')]) /\
    container' = [("a", other_entry); ("fs", fs_entry)].
Proof.
  destruct (upsert_server_frame "mcpServers"
              [("mcpServers", VObj [("a", other_entry); ("fs", other_entry)])]
              [("a", other_entry); ("fs", other_entry)] "fs" fs_entry eq_refl)
    as (container' & Hrun & Hpresent & _).
  exists container'. split; [exact Hrun|].
  apply Hpresent. by exists other_entry.
Defined.

(** C5 as stated fails: the server name ["1"] is new in a container whose
    only key is ["a"], and the upsert puts it before ["a"], not at the
    end. *)
Lemma new_index_key_is_not_appended :
  let config := LocalServerConfig "1" "npx" ["-y"] None in
  let entry := ClaudeCode.transform_config config in
  let document := VObj [("mcpServers", VObj [("a", other_entry)])] in
  lookup_prop "1" [("a", other_entry)] = None /\
  upsert_server "mcpServers" document (config_name config) entry
  = Ok (VObj [("mcpServers", VObj [("1", entry); ("a", other_entry)])]) /\
  upsert_server "mcpServers" document (config_name config) entry
  <> Ok (VObj [("mcpServers", VObj [("a", other_entry); ("1", entry)])]).
Proof. repeat split. discriminate. Qed.

(** ** The list upsert keeps positions *)

Lemma upsert_in_list_array document servers named config :
  lookup_prop "mcpServers" document = Some (VArr servers named) ->
  Continue.upsert_server_in_list (VObj document) config
  = (i <~ Continue.find_index_from (config_name config) servers 0%Z ;;
     mcp_servers <~ Continue.replace_or_push (VArr servers named) i
                      (Continue.transform_config config) ;;
     Ok (VObj (replace_prop "mcpServers" mcp_servers document))).
Proof.
  intros Hc. unfold Continue.upsert_server_in_list. simpl. rewrite Hc. simpl.
  rewrite Hc. simpl.
  destruct (Continue.find_index_from (config_name config) servers 0) as [i|]; simpl; [|done].
  destruct (0 <=? i)%Z; simpl; by rewrite set_own_present by eauto.
Qed.

(** C6: in the list-shaped container of Continue, when the first element
    whose [name] equals the new name is at some position, the upsert puts
    the new element at that position and the list keeps its length and its
    other elements, so [A; B; C] becomes [A; B'; C]; when no element has
    the name the new element is appended at the end; and these are the only
    two outcomes: an append happens only when no name matches. *)
Theorem list_upsert_keeps_position document named config :
  let name := config_name config in
  let new_server := Continue.transform_config config in
  let stored servers :=
    Ok (VObj (replace_prop "mcpServers" (VArr servers named) document)) in
  (forall before server after,
      lookup_prop "mcpServers" document
      = Some (VArr (before ++ server :: after) named) ->
      Forall (no_match name) before ->
      Continue.name_is name server = Ok true ->
      Continue.upsert_server_in_list (VObj document) config
      = stored (before ++ new_server :: after) /\
      length (before ++ new_server :: after) = length (before ++ server :: after)) /\
  (forall servers,
      lookup_prop "mcpServers" document = Some (VArr servers named) ->
      Forall (no_match name) servers ->
      Continue.upsert_server_in_list (VObj document) config
      = stored (servers ++ [new_server])) /\
  (forall servers updated,
      lookup_prop "mcpServers" document = Some (VArr servers named) ->
      Continue.upsert_server_in_list (VObj document) config = Ok updated ->
      (exists before server after,
          servers = before ++ server :: after /\
          Forall (no_match name) before /\
          Continue.name_is name server = Ok true /\
          Ok updated = stored (before ++ new_server :: after)) \/
      (Forall (no_match name) servers /\
       Ok updated = stored (servers ++ [new_server]))).
Proof.
  intros name new_server stored. split; [|split].
  - intros before server after Hc Hb Hs. split.
    + rewrite (upsert_in_list_array _ _ _ _ Hc).
      rewrite find_index_found by done. simpl.
      assert (E : (0 <=? Z.of_nat (length before))%Z = true) by (apply Z.leb_le; lia).
      by rewrite ?Z.add_0_l, E, Nat2Z.id, set_elem_middle.
    + rewrite !length_app. done.
  - intros servers Hc Hall.
    rewrite (upsert_in_list_array _ _ _ _ Hc).
    by rewrite find_index_none by done.
  - intros servers updated Hc. rewrite (upsert_in_list_array _ _ _ _ Hc).
    destruct (Continue.find_index_from (config_name config) servers 0) as [i|] eqn:Hi;
      simpl; [|done].
    apply find_index_inv in Hi; [|lia].
    destruct Hi as [[-> Hall]|(before & server & after & -> & Hb & Hs & ->)]; simpl.
    + intros [= <-]. by right.
    + assert (E : (0 <=? Z.of_nat (length before))%Z = true) by (apply Z.leb_le; lia).
      rewrite ?Z.add_0_l, E, Nat2Z.id, set_elem_middle. intros [= <-].
      left. by exists before, server, after.
Qed.

Lemma list_upsert_keeps_position_witness :
  let A := server_named "a" "one" in
  let B := server_named "b" "two" in
  let C := server_named "c" "three" in
  let config := LocalServerConfig "b" "changed" [] None in
  Continue.upsert_server_in_list (VObj [("mcpServers", VArr [A; B; C] [])]) config
  = Ok (VObj [("mcpServers", VArr [A; server_named "b" "changed"; C] [])]).
Proof.
  intros A B C config.
  apply (proj1 (list_upsert_keeps_position
                  [("mcpServers", VArr [A; B; C] [])] [] config) [A] B [C]).
  - reflexivity.
  - repeat constructor.
  - reflexivity.
Defined.

(** ** Loading a configuration file *)

Section Loading.
Context {R : NodeRuntime}.

Lemma read_config_with_run parse config_path w :
  read_config_with parse config_path w =
  let present := fs_existsSync config_path (files w) in
  let w1 := record (ExistsSync config_path present) w in
  if present then
    (record (ReadFileSync config_path) w1,
     Ok match fs_readFileSync config_path (files w) with
        | Ok content =>
            match parse content with Ok v => v | Throw _ => VObj [] end
        | Throw _ => VObj []
        end)
  else (w1, Ok (VObj [])).
Proof.
  unfold read_config_with, try_catch, bindM, existsSync, readFileSync, liftR, ret.
  simpl. destruct (fs_existsSync config_path (files w)); [|done].
  simpl. destruct (fs_readFileSync config_path (files w)) as [content|e]; [|done].
  by destruct (parse content).
Qed.

Lemma codec_loader parse read_config :
  (parse, read_config) ∈ codecs ->
  read_config = read_config_with parse \/
  read_config =
    read_config_with
      (fun content => parsed <~ parse content ;; Ok (js_or parsed (VObj []))).
Proof.
  unfold codecs. rewrite !elem_of_cons, elem_of_nil.
  intros H. repeat destruct H as [H|H]; try done; injection H as -> ->; auto.
Qed.

(** C3: for the loader of every JSON, YAML and TOML adapter, a load never
    raises; when the file does not exist, or exists and its text is rejected
    by the parser, the load returns the empty document [{}]; so the load of
    an invalid file and the load of a missing file return the same
    value. *)
Theorem read_config_fails_open parse read_config config_path :
  (parse, read_config) ∈ codecs ->
  (forall w, exists w' v, read_config config_path w = (w', Ok v)) /\
  (forall w, missing config_path w ->
             (read_config config_path w).2 = Ok (VObj [])) /\
  (forall w, unparseable parse config_path w ->
             (read_config config_path w).2 = Ok (VObj [])) /\
  (forall w1 w2, missing config_path w1 -> unparseable parse config_path w2 ->
                 (read_config config_path w2).2 = (read_config config_path w1).2).
Proof.
  intros Hin.
  assert (Hmiss : forall w, missing config_path w ->
                            (read_config config_path w).2 = Ok (VObj [])).
  { intros w Hw. unfold missing in Hw.
    destruct (codec_loader _ _ Hin) as [-> | ->];
      by rewrite read_config_with_run, Hw. }
  assert (Hbad : forall w, unparseable parse config_path w ->
                           (read_config config_path w).2 = Ok (VObj [])).
  { intros w (Hex & content & e & Hread & Hparse).
    destruct (codec_loader _ _ Hin) as [-> | ->];
      rewrite read_config_with_run, Hex, Hread; simpl; by rewrite Hparse. }
  split; [|split; [done|split; [done|]]].
  - intros w. destruct (codec_loader _ _ Hin) as [-> | ->];
      rewrite read_config_with_run; simpl;
      destruct (fs_existsSync config_path (files w)); eauto.
  - intros w1 w2 H1 H2. by rewrite (Hmiss w1 H1), (Hbad w2 H2).
Qed.
End Loading.

Section Examples.
#[local] Existing Instance Demo.linux.
#[local] Existing Instance healthy.

Lemma read_config_fails_open_witness :
  let p := "/home/u/.codex/config.toml" in
  let invalid := start [(p, Demo.File "= broken")] in
  let absent := start [] in
  (Codex.read_config p invalid).2 = (Codex.read_config p absent).2.
Proof.
  intros p invalid absent.
  assert (Hin : (TOML_parse, Codex.read_config) ∈ codecs).
  { unfold codecs. rewrite !elem_of_cons. do 7 right. by left. }
  destruct (read_config_fails_open _ _ p Hin) as (_ & _ & _ & Hsame).
  apply Hsame.
  - reflexivity.
  - split; [reflexivity|]. eexists _, _. split; reflexivity.
Defined.
End Examples.

Section Frames.
Context {R : NodeRuntime}.

(** ** The frame of an adapter *)

Lemma guarded_run config_path body w :
  guarded config_path body w =
  match body w with
  | (w', Ok _) => (w', Ok (succeeded config_path))
  | (w', Throw e) => (w', Ok (failed config_path e))
  end.
Proof.
  unfold guarded, try_catch, bindM, ret.
  by destruct (body w) as [w' [[]|e]].
Qed.

Lemma guarded_never_throws config_path body : never_throws (guarded config_path body).
Proof.
  intros w. rewrite guarded_run. destruct (body w) as [w' [[]|e]]; eauto.
Qed.

(** ** Traces only grow *)

Lemma extends_ret {A} (a : A) : extends (ret a).
Proof. intros w. exists []. simpl. by rewrite app_nil_r. Qed.

Lemma extends_liftR {A} (r : result A) : extends (liftR r).
Proof. intros w. exists []. simpl. by rewrite app_nil_r. Qed.

Lemma extends_bind {A B} (m : M A) (k : A -> M B) :
  extends m -> (forall a, extends (k a)) -> extends (bindM m k).
Proof.
  intros Hm Hk w. unfold bindM. destruct (Hm w) as [l1 H1].
  destruct (m w) as [w1 [a|e]]; simpl in *.
  - destruct (Hk a w1) as [l2 H2]. exists (l1 ++ l2).
    by rewrite H2, H1, app_assoc.
  - by exists l1.
Qed.

Lemma extends_try_catch {A} (body : M A) (handler : js_error -> M A) :
  extends body -> (forall e, extends (handler e)) -> extends (try_catch body handler).
Proof.
  intros Hb Hh w. unfold try_catch. destruct (Hb w) as [l1 H1].
  destruct (body w) as [w1 [a|e]]; simpl in *.
  - by exists l1.
  - destruct (Hh e w1) as [l2 H2]. exists (l1 ++ l2).
    by rewrite H2, H1, app_assoc.
Qed.

Lemma extends_existsSync p : extends (existsSync p).
Proof. intros w. by eexists. Qed.

Lemma extends_readFileSync p : extends (readFileSync p).
Proof. intros w. by eexists. Qed.

Lemma extends_mkdirSync p : extends (mkdirSync p).
Proof.
  intros w. unfold mkdirSync. destruct (fs_mkdirSync p (files w)). by eexists.
Qed.

Lemma extends_writeFileSync p data : extends (writeFileSync p data).
Proof.
  intros w. unfold writeFileSync. destruct (fs_writeFileSync p data (files w)).
  by eexists.
Qed.

Lemma extends_modify_and_apply text at_path v :
  extends (OpenCode.modify_and_apply text at_path v).
Proof. intros w. by eexists. Qed.

Lemma extends_if {A} (b : bool) (m1 m2 : M A) :
  extends m1 -> extends m2 -> extends (if b then m1 else m2).
Proof. by destruct b. Qed.

End Frames.

Create HintDb trace discriminated.
#[global] Hint Resolve extends_ret extends_liftR extends_existsSync
  extends_readFileSync extends_mkdirSync extends_writeFileSync
  extends_modify_and_apply : trace.

Ltac grows :=
  repeat first
    [ progress intros
    | apply extends_bind
    | apply extends_try_catch
    | apply extends_if
    | solve [auto with trace] ].

Section Steps.
Context {R : NodeRuntime}.



Lemma extends_opencode_read_config p : extends (OpenCode.read_config p).
Proof. unfold OpenCode.read_config. grows. Qed.




End Steps.

(** ** Path resolution *)

Section Resolution.
Context {R : NodeRuntime} {P : Process}.

(** When the path is resolved, the adapter is its frame at that path. *)
Lemma run_resolved {A} (resolution : result string) (k : string -> M A) p :
  resolution = Ok p ->
  (config_path <- liftR resolution ;; k config_path) = k p.
Proof. intros ->. reflexivity. Qed.

(** What path resolution throws is thrown by the adapter, before any call. *)
Lemma run_unresolved {A} (resolution : result string) (k : string -> M A) e w :
  resolution = Throw e ->
  (config_path <- liftR resolution ;; k config_path) w = (w, Throw e).
Proof. intros ->. reflexivity. Qed.
End Resolution.

(** Proves that a path resolution returns, in the process [healthy] or
    under the hypotheses that the two calls do not throw. *)
Ltac resolves :=
  unfold Claude.get_config_path, ClaudeCode.get_config_path,
    Cursor.get_config_path, VSCode.get_config_path, Windsurf.get_config_path,
    Continue.get_config_path, Goose.get_config_path, Codex.get_config_path,
    OpenCode.get_base_dir, env_or_else, call_os_homedir, call_process_cwd;
  repeat match goal with
         | H : homedir_throws = None |- _ => rewrite H
         | H : cwd_throws = None |- _ => rewrite H
         end;
  cbn [homedir_throws cwd_throws healthy bindR];
  repeat match goal with
         | |- context [if ?c then _ else _] => destruct c; cbn [bindR]
         | |- context [match process_env ?n with _ => _ end] =>
             destruct (process_env n); cbn [bindR]
         end;
  eauto.

(** Takes the adapter in the goal to its frame at the resolved path. *)
Ltac at_resolved_path_as p Hp :=
  unfold Claude.add_to_claude, ClaudeCode.add_to_claude_code,
    Cursor.add_to_cursor, Continue.add_to_continue, Windsurf.add_to_windsurf,
    VSCode.add_to_vscode, Goose.add_to_goose, Codex.add_to_codex,
    OpenCode.add_to_opencode, OpenCode.get_config_path;
  match goal with
  | |- context [bindM (liftR ?resolution) ?k] =>
      assert (exists p, resolution = Ok p) as [p Hp] by resolves;
      rewrite (run_resolved resolution k p Hp); cbv beta
  end.

Ltac at_resolved_path :=
  let p := fresh "config_path" in
  let Hp := fresh "Hpath" in
  at_resolved_path_as p Hp.

(** Path resolution returns a path or throws what one of the two calls
    throws. *)
Ltac returns_or_throws :=
  unfold thrown_by_a_call, Claude.get_config_path, ClaudeCode.get_config_path,
    Cursor.get_config_path, VSCode.get_config_path, Windsurf.get_config_path,
    Continue.get_config_path, Goose.get_config_path, Codex.get_config_path,
    OpenCode.get_base_dir, env_or_else, call_os_homedir, call_process_cwd;
  repeat match goal with
         | |- context [if ?c then _ else _] => destruct c; cbn [bindR]
         | |- context [match process_env ?n with _ => _ end] =>
             destruct (process_env n); cbn [bindR]
         | |- context [match homedir_throws with _ => _ end] =>
             destruct homedir_throws; cbn [bindR]
         | |- context [match cwd_throws with _ => _ end] =>
             destruct cwd_throws; cbn [bindR]
         end;
  first [ left; eexists; reflexivity
        | right; eexists; split; [reflexivity|auto] ].

(** Splits on the path resolution of the adapter in the goal. *)
Ltac at_any_path config_path Hpath e Hthrown :=
  unfold Claude.add_to_claude, ClaudeCode.add_to_claude_code,
    Cursor.add_to_cursor, Continue.add_to_continue, Windsurf.add_to_windsurf,
    VSCode.add_to_vscode, Goose.add_to_goose, Codex.add_to_codex,
    OpenCode.add_to_opencode, OpenCode.get_config_path;
  match goal with
  | |- context [bindM (liftR ?resolution) ?k] =>
      let Hcall := fresh "Hcall" in
      assert ((exists p, resolution = Ok p) \/
              (exists e, resolution = Throw e /\ thrown_by_a_call e))
        as [[config_path Hpath]|(e & Hthrown & Hcall)]
        by returns_or_throws;
      [ rewrite (run_resolved resolution k config_path Hpath); cbv beta
      | try rewrite (run_unresolved resolution k e _ Hthrown) ]
  end.

Section Directory.
Context {R : NodeRuntime}.

(** What follows is about a process in which [os.homedir()] and
    [process.cwd()] return. *)
#[local] Existing Instance healthy.



End Directory.

Section Examples.
#[local] Existing Instance Demo.linux.
#[local] Existing Instance healthy.


End Examples.

Section Documents.
Context {R : NodeRuntime}.

(** What follows is about a process in which [os.homedir()] and
    [process.cwd()] return. *)
#[local] Existing Instance healthy.

Lemma merge_and_write_json_run parse key transform_config config_path config w :
  merge_and_write_json (read_config_with parse) key transform_config config_path
    config w =
  match read_config_with parse config_path w with
  | (w1, Ok existing_config) =>
      match upsert_server key existing_config (config_name config)
              (transform_config config) with
      | Ok updated =>
          writeFileSync config_path (JSON_stringify updated +:+ newline) w1
      | Throw e => (w1, Throw e)
      end
  | (w1, Throw e) => (w1, Throw e)
  end.
Proof.
  unfold merge_and_write_json, bindM, liftR.
  destruct (read_config_with parse config_path w) as [w1 [existing_config|e]]; [|done].
  by destruct (upsert_server _ _ _ _).
Qed.

(** C10: there is file content that [JSON.parse] accepts and that is not
    an object, the literal [null]: when the file of Claude Code holds such
    content, [read_config] returns [null] and not the empty document; the
    read of [existing_config.mcpServers] then throws, nothing is written,
    and the adapter returns [{ success: false, path, error }]. *)
Theorem parsed_null_is_not_recovered config options content w w1 :
  let config_path :=
    if is_global options then path_join [os_homedir; ".claude.json"]
    else path_join [process_cwd; ".mcp.json"] in
  let directory_step :=
    if is_global options then ensure_directory config_path else ret tt in
  let loaded :=
    record (ReadFileSync config_path) (record (ExistsSync config_path true) w1) in
  directory_step w = (w1, Ok tt) ->
  fs_existsSync config_path (files w1) = true ->
  fs_readFileSync config_path (files w1) = Ok content ->
  JSON_parse content = Ok VNull ->
  ClaudeCode.get_config_path (is_global options) = Ok config_path /\
  ClaudeCode.read_config config_path w1 = (loaded, Ok VNull) /\
  ClaudeCode.add_to_claude_code config options w
  = (loaded,
     Ok {| success := false; path := config_path;
           error := Some "Cannot read properties of null (reading 'mcpServers')" |}).
Proof.
  intros config_path directory_step loaded Hdir Hex Hread Hparse.
  assert (Hload : ClaudeCode.read_config config_path w1 = (loaded, Ok VNull)).
  { unfold ClaudeCode.read_config. rewrite read_config_with_run, Hex, Hread.
    simpl. by rewrite Hparse. }
  assert (Hpath : ClaudeCode.get_config_path (is_global options) = Ok config_path)
    by (unfold config_path; destruct (is_global options); reflexivity).
  split; [done|]. split; [done|].
  unfold ClaudeCode.add_to_claude_code. rewrite (run_resolved _ _ _ Hpath).
  fold directory_step. rewrite guarded_run. unfold bindM at 1. rewrite Hdir.
  unfold ClaudeCode.read_config in *.
  rewrite merge_and_write_json_run. by rewrite Hload.
Qed.

(** C8: the Local descriptor [fs] with an empty [env], given to the VS Code
    adapter at global scope when the file is missing (or holds a text that
    [JSON.parse] rejects, as the empty text), makes the adapter write the
    document in which [servers.fs] is [{ type: "stdio", command: "npx",
    args: ["-y", "@modelcontextprotocol/server-filesystem", "/tmp"] }],
    without an [env] key; the write is the last call, and the result is a
    success exactly when the write succeeds. *)
Theorem vscode_fs_example w w1 :
  let config_path := path_join [VSCode.get_vscode_user_data_dir; "mcp.json"] in
  let text := JSON_stringify fs_document +:+ newline in
  ensure_directory config_path w = (w1, Ok tt) ->
  missing config_path w1 \/ unparseable JSON_parse config_path w1 ->
  VSCode.get_config_path true = Ok config_path /\
  VSCode.transform_config fs_config = fs_vscode_entry /\
  (servers <~ get_prop fs_document "servers" ;; get_prop servers "fs")
  = Ok fs_vscode_entry /\
  has_own_key fs_vscode_entry "env" = false /\
  exists w2 r,
    VSCode.add_to_vscode fs_config global_scope w = (w2, Ok r) /\
    last (calls w2) = Some (WriteFileSync config_path text) /\
    path r = config_path /\
    (success r = true <-> (fs_writeFileSync config_path text (files w1)).2 = Ok tt).
Proof.
  intros config_path text Hdir Hfile.
  split; [done|]. split; [done|]. split; [done|]. split; [done|].
  unfold VSCode.add_to_vscode. change (is_global global_scope) with true.
  rewrite (run_resolved _ _ config_path eq_refl). rewrite guarded_run. unfold bindM at 1. rewrite Hdir.
  unfold VSCode.read_config. rewrite merge_and_write_json_run.
  assert (Hload : exists w1', files w1' = files w1 /\
             read_config_with JSON_parse config_path w1 = (w1', Ok (VObj []))).
  { rewrite read_config_with_run.
    destruct Hfile as [Hmiss|(Hex & content & e & Hread & Hparse)].
    - unfold missing in Hmiss. rewrite Hmiss.
      eexists. split; [|reflexivity]. done.
    - rewrite Hex, Hread. simpl. rewrite Hparse.
      eexists. split; [|reflexivity]. done. }
  destruct Hload as (w1' & Hfiles & ->).
  change (upsert_server "servers" (VObj []) (config_name fs_config)
            (VSCode.transform_config fs_config)) with (Ok fs_document).
  unfold writeFileSync. rewrite Hfiles. unfold text.
  destruct (fs_writeFileSync config_path _ (files w1)) as [f [[]|e]]; simpl;
    eexists _, _; (split; [reflexivity|]); simpl;
    rewrite last_snoc; repeat split; done.
Qed.
End Documents.

Section Examples.
#[local] Existing Instance Demo.linux.
#[local] Existing Instance healthy.

Lemma parsed_null_is_not_recovered_witness :
  let config_path := "/work/.mcp.json" in
  ClaudeCode.add_to_claude_code fs_config project_scope
    (start [(config_path, Demo.File "null")])
  = (record (ReadFileSync config_path)
       (record (ExistsSync config_path true)
          (start [(config_path, Demo.File "null")])),
     Ok {| success := false; path := config_path;
           error := Some "Cannot read properties of null (reading 'mcpServers')" |}).
Proof.
  intros config_path.
  apply (parsed_null_is_not_recovered (R := Demo.linux) fs_config project_scope "null"
           (start (R := Demo.linux) [(config_path, Demo.File "null")])
           (start (R := Demo.linux) [(config_path, Demo.File "null")]));
    reflexivity.
Defined.

Lemma vscode_fs_example_witness :
  let config_path := "/home/u/.config/Code/User/mcp.json" in
  exists w2 r,
    VSCode.add_to_vscode fs_config global_scope (start []) = (w2, Ok r) /\
    last (calls w2)
    = Some (WriteFileSync config_path (JSON_stringify fs_document +:+ newline)) /\
    path r = config_path /\
    (success r = true <->
     (fs_writeFileSync config_path (JSON_stringify fs_document +:+ newline)
        [("/home/u/.config/Code/User", Demo.Directory)]).2 = Ok tt).
Proof.
  intros config_path.
  apply (vscode_fs_example (R := Demo.linux) (start (R := Demo.linux) [])
           (record (MkdirSync "/home/u/.config/Code/User")
              (record (ExistsSync "/home/u/.config/Code/User" false)
                 (start (R := Demo.linux) [("/home/u/.config/Code/User", Demo.Directory)])))).
  - reflexivity.
  - left. reflexivity.
Defined.
End Examples.

Section Orchestration.
Context {R : NodeRuntime} {P : Process}.
Variables add_to_copilot_cli add_to_gemini : ClientAddFunction.

#[local] Abbreviation lookup_client := (Clients.lookup_client add_to_copilot_cli add_to_gemini).
#[local] Abbreviation configure_clients :=
  (Main.configure_clients add_to_copilot_cli add_to_gemini).

Lemma opencode_never_throws config options :
  homedir_throws = None -> cwd_throws = None ->
  never_throws (OpenCode.add_to_opencode config options).
Proof.
  intros Hhome Hcwd w. at_resolved_path.
  unfold bindM at 1. unfold bindM at 1. unfold existsSync at 1. unfold ret at 1.
  cbv beta iota zeta. apply guarded_never_throws.
Qed.

(** An adapter at hand returns a result once its path is resolved. *)
Lemma resolved_never_throws (resolution : result string)
    (frame : string -> M AddResult) :
  (exists config_path, resolution = Ok config_path) ->
  (forall config_path, never_throws (frame config_path)) ->
  never_throws (config_path <- liftR resolution ;; frame config_path).
Proof.
  intros [config_path Hpath] Hframe. rewrite (run_resolved _ _ _ Hpath).
  apply Hframe.
Qed.

Lemma registered_never_throws key fn :
  homedir_throws = None -> cwd_throws = None ->
  adapter_never_throws add_to_copilot_cli ->
  adapter_never_throws add_to_gemini ->
  lookup_client key = Some fn ->
  adapter_never_throws fn.
Proof.
  intros Hhome Hcwd Hc Hg. unfold Clients.lookup_client, Clients.clients. simpl.
  repeat (destruct (String.eqb key _);
          [intros [= <-];
           first [ exact Hc | exact Hg
                 | intros config options; by apply opencode_never_throws
                 | intros config options; apply resolved_never_throws;
                   [resolves|intros config_path; apply guarded_never_throws] ]
          |]).
  discriminate.
Qed.

Lemma configure_clients_app config is_global first rest results w :
  configure_clients config is_global (first ++ rest) results w =
  match configure_clients config is_global first results w with
  | (w1, Ok results1) => configure_clients config is_global rest results1 w1
  | (w1, Throw e) => (w1, Throw e)
  end.
Proof.
  revert results w. induction first as [|client_name first IH]; intros results w.
  - done.
  - simpl. destruct (lookup_client (toLowerCase client_name)) as [client_fn|];
      [|apply IH].
    unfold bindM. destruct (client_fn config _ w) as [w1 [result|e]]; [|done].
    apply IH.
Qed.

(** What an adapter throws ends the loop: the clients after it are not
    run and no result is returned. *)
Lemma configure_clients_aborts config is_global client_name rest results
    client_fn w w1 e :
  lookup_client (toLowerCase client_name) = Some client_fn ->
  client_fn config {| is_global := is_global |} w = (w1, Throw e) ->
  configure_clients config is_global (client_name :: rest) results w
  = (w1, Throw e).
Proof. intros Hfn Hrun. simpl. rewrite Hfn. unfold bindM. by rewrite Hrun. Qed.

(** The loop when every adapter returns: the worlds it goes through, one
    adapter after the other. *)
Lemma configure_clients_chain config is_global selected results w :
  homedir_throws = None -> cwd_throws = None ->
  adapter_never_throws add_to_copilot_cli ->
  adapter_never_throws add_to_gemini ->
  Forall (Clients.selectable add_to_copilot_cli add_to_gemini) selected ->
  exists worlds added w',
    length worlds = S (length selected) /\
    worlds !! 0 = Some w /\
    worlds !! length selected = Some w' /\
    configure_clients config is_global selected results w
    = (w', Ok (results ++ added)) /\
    map Main.client added = selected /\
    forall i client_name,
      selected !! i = Some client_name ->
      exists client_fn wi wi' result,
        lookup_client (toLowerCase client_name) = Some client_fn /\
        worlds !! i = Some wi /\
        worlds !! S i = Some wi' /\
        client_fn config {| is_global := is_global |} wi = (wi', Ok result) /\
        added !! i
        = Some {| Main.client := client_name; Main.outcome := result |}.
Proof.
  intros Hhome Hcwd Hc Hg Hsel. revert results w.
  induction Hsel as [|client_name selected Hname Hsel IH]; intros results w.
  - exists [w], [], w. rewrite app_nil_r. by repeat split.
  - unfold Clients.selectable, Clients.is_client_name in Hname.
    destruct (lookup_client (toLowerCase client_name)) as [client_fn|] eqn:Hfn;
      [|discriminate].
    destruct (registered_never_throws _ _ Hhome Hcwd Hc Hg Hfn config
                {| is_global := is_global |} w) as (w1 & result & Hresult).
    destruct (IH (results ++ [{| Main.client := client_name;
                                  Main.outcome := result |}]) w1)
      as (worlds & added & w' & Hlen & Hfirst & Hlast & Hrun & Hadded & Hsteps).
    exists (w :: worlds),
      ({| Main.client := client_name; Main.outcome := result |} :: added), w'.
    split; [by rewrite !length_cons, Hlen|]. split; [done|]. split; [done|].
    split.
    { cbn [Main.configure_clients]. rewrite Hfn. unfold bindM. rewrite Hresult.
      rewrite Hrun. by rewrite <- app_assoc. }
    split; [by rewrite map_cons, Hadded|].
    intros [|i] name Hi.
    + injection Hi as <-. by exists client_fn, w, w1, result.
    + destruct (Hsteps i name Hi) as (fn & wi & wi' & r & ? & ? & ? & ? & ?).
      by exists fn, wi, wi', r.
Qed.

Lemma configure_clients_total config is_global selected results w :
  homedir_throws = None -> cwd_throws = None ->
  adapter_never_throws add_to_copilot_cli ->
  adapter_never_throws add_to_gemini ->
  Forall (Clients.selectable add_to_copilot_cli add_to_gemini) selected ->
  exists w' added,
    configure_clients config is_global selected results w
    = (w', Ok (results ++ added)) /\
    map Main.client added = selected.
Proof.
  intros Hhome Hcwd Hc Hg Hsel.
  destruct (configure_clients_chain config is_global selected results w
              Hhome Hcwd Hc Hg Hsel)
    as (worlds & added & w' & _ & _ & _ & Hrun & Hadded & _).
  by exists w', added.
Qed.

(** C4 (as amended): in a process in which [os.homedir()] and
    [process.cwd()] return, when the two adapters outside this development
    keep the contract of the others (they return a result and do not
    throw) and every selected id passed the filter of [main]: every
    registered adapter returns an [AddResult] whatever happens inside it;
    an error thrown inside the frame of an adapter becomes the result
    [{ success: false, path, error }]; and the loop runs the adapters of the
    selected clients one after the other, in the order of the selection,
    each in the world that the one before it left, whether the ones before
    it succeeded or not, and returns their results in that order with the
    world that the last one left. *)
Theorem every_client_is_attempted config is_global selected w :
  homedir_throws = None -> cwd_throws = None ->
  adapter_never_throws add_to_copilot_cli ->
  adapter_never_throws add_to_gemini ->
  Forall (Clients.selectable add_to_copilot_cli add_to_gemini) selected ->
  (forall key fn, lookup_client key = Some fn -> adapter_never_throws fn) /\
  (forall config_path body w0 w1 e,
      body w0 = (w1, Throw e) ->
      guarded config_path body w0 = (w1, Ok (failed config_path e))) /\
  exists worlds results w',
    length worlds = S (length selected) /\
    worlds !! 0 = Some w /\
    worlds !! length selected = Some w' /\
    configure_clients config is_global selected [] w = (w', Ok results) /\
    map Main.client results = selected /\
    forall i client_name,
      selected !! i = Some client_name ->
      exists client_fn wi wi' result,
        lookup_client (toLowerCase client_name) = Some client_fn /\
        worlds !! i = Some wi /\
        worlds !! S i = Some wi' /\
        client_fn config {| is_global := is_global |} wi = (wi', Ok result) /\
        results !! i
        = Some {| Main.client := client_name; Main.outcome := result |}.
Proof.
  intros Hhome Hcwd Hc Hg Hsel. split; [|split].
  - intros key fn. by apply registered_never_throws.
  - intros config_path body w0 w1 e Hbody. by rewrite guarded_run, Hbody.
  - apply (configure_clients_chain config is_global selected [] w
             Hhome Hcwd Hc Hg Hsel).
Qed.
End Orchestration.

Section Examples.
#[local] Existing Instance Demo.linux.
#[local] Existing Instance healthy.

(** The file of Windsurf is a directory, so its adapter fails; the adapter
    of Cursor, which comes after it, still runs. *)
Lemma every_client_is_attempted_witness :
  let blocked := "/home/u/.codeium/windsurf/mcp_config.json" in
  exists w',
    Main.configure_clients Cursor.add_to_cursor Cursor.add_to_cursor fs_config false
      ["Windsurf"; "cursor"] [] (start [(blocked, Demo.Directory)])
    = (w',
       Ok [{| Main.client := "Windsurf";
              Main.outcome :=
                {| success := false; path := blocked;
                   error := Some "EISDIR: illegal operation on a directory, open" |} |};
           {| Main.client := "cursor";
              Main.outcome :=
                {| success := true; path := "/work/.cursor/mcp.json";
                   error := None |} |}]).
Proof.
  intros blocked.
  destruct (every_client_is_attempted (R := Demo.linux)
              Cursor.add_to_cursor Cursor.add_to_cursor fs_config false
              ["Windsurf"; "cursor"]
              (start (R := Demo.linux) [(blocked, Demo.Directory)]))
    as (_ & _ & worlds & results & w' & _ & _ & _ & Hrun & _).
  - reflexivity.
  - reflexivity.
  - intros config options. apply resolved_never_throws;
      [resolves|intros config_path; apply guarded_never_throws].
  - intros config options. apply resolved_never_throws;
      [resolves|intros config_path; apply guarded_never_throws].
  - repeat constructor.
  - exists w'. rewrite Hrun. vm_compute in Hrun. by injection Hrun as _ <-.
Defined.

(** C4 as stated fails: the working directory has been removed, so
    [process.cwd()] throws while the adapter of Cursor resolves its
    project path, before its [try]; the adapter throws, the loop of [main]
    ends there without a result, and the adapter of Goose, which comes
    after it and would have succeeded, is not run. *)
Lemma cwd_failure_ends_the_loop :
  let e := Error "ENOENT: no such file or directory, uv_cwd" in
  let loop :=
    Main.configure_clients (P := cwd_removed) Goose.add_to_goose
      Goose.add_to_goose fs_config false in
  Cursor.add_to_cursor (P := cwd_removed) fs_config project_scope (start [])
  = (start [], Throw e) /\
  loop ["cursor"; "goose"] [] (start []) = (start [], Throw e) /\
  (loop ["goose"] [] (start [])).2
  = Ok [{| Main.client := "goose";
           Main.outcome :=
             {| success := true; path := "/home/u/.config/goose/config.yaml";
                error := None |} |}].
Proof. vm_compute. done. Qed.
End Examples.

(** ** The patches of OpenCode *)

Section Patches.
Context {R : NodeRuntime}.

(** What follows is about a process in which [os.homedir()] and
    [process.cwd()] return. *)
#[local] Existing Instance healthy.

Lemma opencode_read_config_truthy config_path w w' loaded :
  OpenCode.read_config config_path w = (w', Ok loaded) -> truthy loaded.2 = true.
Proof.
  unfold OpenCode.read_config, try_catch, bindM, existsSync, readFileSync, liftR, ret.
  simpl. destruct (fs_existsSync config_path (files w)); simpl.
  - destruct (fs_readFileSync config_path (files w)) as [content|e]; simpl.
    + destruct (jsonc_parse content) as [config|e]; simpl.
      * intros [= _ <-]. simpl. unfold js_or. by destruct (truthy config) eqn:E.
      * by intros [= _ <-].
    + by intros [= _ <-].
  - by intros [= _ <-].
Qed.

Lemma get_prop_of_truthy v key :
  truthy v = true -> exists x, get_prop v key = Ok x.
Proof.
  destruct v as [| |b|x|s|es ps|ps]; simpl; try discriminate; eauto.
  destruct (array_index key); eauto. destruct (String.eqb key "length"); eauto.
Qed.


(** The patch sequence calls [jsonc.modify] at the paths of its
    operations, in their order, and stops at the first patch that fails. *)
Lemma apply_patches_paths operations text w :
  exists issued,
    modified_paths (calls (apply_patches text operations w).1)
    = modified_paths (calls w) ++ issued /\
    issued `prefix_of` map fst operations /\
    (forall patched, (apply_patches text operations w).2 = Ok patched ->
                     issued = map fst operations).
Proof.
  revert text w. induction operations as [|[at_path v] rest IH]; intros text w.
  - exists []. simpl. rewrite app_nil_r. split; [done|]. split; [|done]. by exists [].
  - simpl. unfold bindM, OpenCode.modify_and_apply.
    destruct (edit <~ jsonc_modify text at_path v ;; jsonc_applyEdits text edit)
      as [text'|e].
    + destruct (IH text' (record (JsoncModify text at_path v) w))
        as (issued & Hcalls & Hprefix & Hall).
      exists (at_path :: issued). rewrite Hcalls. unfold modified_paths, record.
      simpl. rewrite omap_app. simpl. rewrite <- app_assoc. simpl.
      split; [done|]. split; [by apply prefix_cons|].
      intros patched Hok. f_equal. by apply (Hall patched).
    + exists [at_path]. simpl. unfold modified_paths. rewrite omap_app. simpl.
      split; [done|]. split; [|done].
      apply prefix_cons, prefix_nil.
Qed.





End Patches.

Section Examples.
#[local] Existing Instance Demo.linux.
#[local] Existing Instance healthy.


End Examples.
(** * Further properties *)

(** ** The entries *)

(** X1: for a Local descriptor, each of the seven adapters that test the
    tag ['stdio'] (Claude Desktop, Claude Code, Cursor, VS Code, Continue,
    Goose, OpenCode) returns an object in which the [env] record sits
    under the adapter's own name for it exactly when the record has a key,
    and in which no remote-only field appears. *)
Theorem local_entry_optional_env transform_config field name command args env :
  (transform_config, field) ∈ local_env_fields ->
  let entry := transform_config (LocalServerConfig name command args env) in
  entry = VObj (entry_props entry) /\
  lookup_prop field (entry_props entry) = attached env /\
  Forall (fun k => lookup_prop k (entry_props entry) = None) remote_only_fields.
Proof.
  unfold local_env_fields. rewrite !elem_of_cons, elem_of_nil.
  intros H. repeat destruct H as [H|H]; try done; injection H as -> ->;
    destruct env as [[|kv env]|]; cbn;
    (split; [reflexivity|]); (split; [reflexivity|]);
    repeat constructor.
Qed.

(** X2: for a Remote descriptor, each of the nine adapters returns an
    object that holds the URL under the adapter's name for it ([serverUrl]
    for Windsurf), holds the [headers] record under the adapter's name for
    it ([http_headers] for Codex) exactly when the record has a key, and
    holds no local-only field. *)
Theorem remote_entry_optional_headers transform_config url_field headers_field
    name url headers :
  (transform_config, (url_field, headers_field)) ∈ remote_fields ->
  let entry := transform_config (RemoteServerConfig name url headers) in
  entry = VObj (entry_props entry) /\
  lookup_prop url_field (entry_props entry) = Some (VStr url) /\
  lookup_prop headers_field (entry_props entry) = attached headers /\
  Forall (fun k => lookup_prop k (entry_props entry) = None) local_only_fields.
Proof.
  unfold remote_fields. rewrite !elem_of_cons, elem_of_nil.
  intros H. repeat destruct H as [H|H]; try done; injection H as -> -> ->;
    destruct headers as [[|kv headers]|]; cbn;
    (split; [reflexivity|]); (split; [reflexivity|]); (split; [reflexivity|]);
    repeat constructor.
Qed.

(** ** The mapping upsert on the whole document *)

Lemma lookup_set_own_other k k' v ps :
  k' <> k -> lookup_prop k' (set_own k v ps) = lookup_prop k' ps.
Proof.
  intros Hne. unfold set_own. destruct (lookup_prop k ps) eqn:Hl.
  - by apply lookup_replace_other.
  - destruct (String.eqb k "__proto__"); [done|].
    destruct (define_split k v ps) as (before & after & -> & ->).
    rewrite !lookup_app. destruct (lookup_prop k' before); [done|]. simpl.
    destruct (String.eqb k' k) eqn:E; [|done].
    apply String.eqb_eq in E. contradiction.
Qed.

Lemma lookup_set_own_same k v ps :
  k <> "__proto__" -> lookup_prop k (set_own k v ps) = Some v.
Proof.
  intros Hp. apply String.eqb_neq in Hp. unfold set_own.
  destruct (lookup_prop k ps) eqn:Hl.
  - apply lookup_replace_same. eauto.
  - rewrite Hp. by apply lookup_define.
Qed.

Lemma set_own_nil k v :
  k <> "__proto__" -> set_own k v [] = [(k, v)].
Proof.
  intros Hp. apply String.eqb_neq in Hp. unfold set_own. simpl. rewrite Hp.
  unfold define_prop. by destruct (array_index k).
Qed.

Lemma replace_replace_any k v v' ps :
  replace_prop k v (replace_prop k v' ps) = replace_prop k v ps.
Proof.
  induction ps as [|[k0 v0] ps IH]; simpl; [done|].
  destruct (String.eqb k k0) eqn:E; simpl; rewrite E; [done|]. by rewrite IH.
Qed.

Lemma set_own_append k v ps :
  lookup_prop k ps = None -> array_index k = None -> k <> "__proto__" ->
  set_own k v ps = ps ++ [(k, v)].
Proof.
  intros Hl Hi Hp. apply String.eqb_neq in Hp. unfold set_own, define_prop.
  by rewrite Hl, Hp, Hi.
Qed.

Lemma replace_last k v v' ps :
  lookup_prop k ps = None ->
  replace_prop k v (ps ++ [(k, v')]) = ps ++ [(k, v)].
Proof.
  intros Hl. rewrite replace_app_absent by done. simpl. by rewrite String.eqb_refl.
Qed.

(** X3: in a document that is an object without the container key of a
    mapping-shaped adapter, the upsert adds the container after the
    settings that are there, which keep their order and values, and the
    container holds the new entry only; when the key is there with a falsy
    value ([null], [false], [0], the empty string) the container takes the
    place of that value. *)
Theorem upsert_creates_container key document name entry :
  key ∈ container_keys ->
  name <> "__proto__" ->
  (lookup_prop key document = None ->
   upsert_server key (VObj document) name entry
   = Ok (VObj (document ++ [(key, VObj [(name, entry)])]))) /\
  (forall stale,
      lookup_prop key document = Some stale -> truthy stale = false ->
      upsert_server key (VObj document) name entry
      = Ok (VObj (replace_prop key (VObj [(name, entry)]) document))).
Proof.
  intros Hkey Hname.
  assert (Hplain : array_index key = None /\ key <> "__proto__").
  { unfold container_keys in Hkey. rewrite !elem_of_cons, elem_of_nil in Hkey.
    repeat destruct Hkey as [->|Hkey]; done. }
  destruct Hplain as [Hidx Hproto]. split.
  - intros Habsent. unfold upsert_server.
    cbn [get_prop bindR]. rewrite Habsent. cbn [default from_option id truthy negb set_prop bindR].
    rewrite (set_own_append key (VObj []) document) by done.
    cbn [get_prop bindR]. rewrite lookup_app, Habsent.
    cbn [lookup_prop]. rewrite String.eqb_refl.
    cbn [default from_option id set_prop bindR]. rewrite set_own_nil by done.
    f_equal. f_equal. rewrite set_own_present.
    + by apply replace_last.
    + rewrite lookup_app, Habsent. simpl. rewrite String.eqb_refl. eauto.
  - intros stale Hstale Hfalsy. unfold upsert_server.
    cbn [get_prop bindR]. rewrite Hstale. cbn [default from_option id]. rewrite Hfalsy.
    cbn [negb set_prop bindR get_prop].
    rewrite (set_own_present key (VObj []) document) by eauto.
    rewrite lookup_replace_same by eauto.
    cbn [default from_option id set_prop bindR]. rewrite set_own_nil by done.
    f_equal. f_equal. rewrite set_own_present.
    + apply replace_replace_any.
    + rewrite lookup_replace_same; eauto.
Qed.

(** X4: when the upsert succeeds on a document that is an object, every
    top-level setting other than the container keeps its value, and when
    the container was an object every server in it other than the named
    one keeps its value; this holds for every server name, array-index
    names and [__proto__] included. *)
Theorem upsert_keeps_the_others key document name entry updated :
  upsert_server key (VObj document) name entry = Ok updated ->
  exists document',
    updated = VObj document' /\
    (forall k, k <> key -> lookup_prop k document' = lookup_prop k document) /\
    (forall container,
        lookup_prop key document = Some (VObj container) ->
        exists container',
          lookup_prop key document' = Some (VObj container') /\
          forall k, k <> name -> lookup_prop k container' = lookup_prop k container).
Proof.
  unfold upsert_server. cbn [get_prop bindR].
  destruct (negb (truthy (default VUndefined (lookup_prop key document))))
    eqn:Hfalsy; cbn [set_prop bindR get_prop].
  - destruct (set_prop (default VUndefined
                          (lookup_prop key (set_own key (VObj []) document)))
                name entry) as [mcp_servers|] eqn:Hset;
      cbn [bindR]; [|done].
    intros [= <-]. eexists. split; [reflexivity|]. split.
    + intros k Hk. by rewrite !lookup_set_own_other.
    + intros c Hc. exfalso. rewrite Hc in Hfalsy. cbn in Hfalsy. discriminate.
  - destruct (set_prop (default VUndefined (lookup_prop key document)) name entry)
      as [mcp_servers|] eqn:Hset; cbn [bindR]; [|done].
    intros [= <-]. eexists. split; [reflexivity|]. split.
    + intros k Hk. by rewrite lookup_set_own_other.
    + intros c Hc. rewrite Hc in Hset.
      simpl in Hset. injection Hset as <-.
      exists (set_own name entry c). split.
      * rewrite set_own_present by eauto. apply lookup_replace_same. eauto.
      * intros k Hk. by apply lookup_set_own_other.
Qed.

(** X5: what the upsert stored can be read back.  After a successful
    mapping upsert under a name other than [__proto__], reading the
    container and then the name gives the entry; after a successful list
    upsert, the first element whose [name] is the new name is the new
    element. *)
Theorem upsert_then_read_back :
  (forall key existing_config name entry updated,
      upsert_server key existing_config name entry = Ok updated ->
      name <> "__proto__" ->
      (mcp_servers <~ get_prop updated key ;; get_prop mcp_servers name)
      = Ok entry) /\
  (forall existing_config config updated,
      Continue.upsert_server_in_list existing_config config = Ok updated ->
      exists servers named i,
        get_prop updated "mcpServers" = Ok (VArr servers named) /\
        Continue.find_index_from (config_name config) servers 0 = Ok (Z.of_nat i) /\
        servers !! i = Some (Continue.transform_config config)).
Proof.
  split.
  - intros key existing_config name entry updated. unfold upsert_server.
    destruct (get_prop existing_config key) as [container|]; simpl; [|done].
    destruct (if negb (truthy container)
              then set_prop existing_config key (VObj [])
              else Ok existing_config) as [doc1|]; simpl; [|done].
    destruct (get_prop doc1 key) as [mcp_servers|] eqn:Hm; simpl; [|done].
    destruct (set_prop mcp_servers name entry) as [mcp_servers'|] eqn:Hset;
      simpl; [|done].
    intros Hback Hname.
    destruct (get_set_prop _ _ _ _ Hback) as [Hget|(-> & _ & Hundef)].
    + rewrite Hget. simpl.
      by destruct (get_set_prop _ _ _ _ Hset) as [Hentry|(_ & Hp & _)].
    + rewrite Hundef in Hm. injection Hm as <-. discriminate.
  - intros existing_config config updated.
    unfold Continue.upsert_server_in_list.
    destruct (get_prop existing_config "mcpServers") as [container|]; simpl; [|done].
    destruct (if negb (truthy container)
              then set_prop existing_config "mcpServers" (VArr [] [])
              else Ok existing_config) as [doc1|]; simpl; [|done].
    destruct (get_prop doc1 "mcpServers") as [mcp_servers|]; simpl; [|done].
    destruct mcp_servers as [| |b|x|s|servers named|ps]; simpl; try done.
    destruct (Continue.find_index_from (config_name config) servers 0)
      as [i|] eqn:Hi; simpl; [|done].
    apply find_index_inv in Hi; [|lia].
    destruct Hi as [[-> Hall]|(before & server & after & -> & Hb & Hs & ->)]; simpl.
    + intros Hback.
      destruct (get_set_prop _ _ _ _ Hback) as [Hget|(_ & Hk & _)]; [|discriminate].
      exists (servers ++ [Continue.transform_config config]), named, (length servers).
      split; [done|]. split.
      * rewrite find_index_found by (done || apply name_is_transform).
        f_equal.
      * rewrite lookup_app_r by lia. by rewrite Nat.sub_diag.
    + assert (E : (0 <=? Z.of_nat (length before))%Z = true) by (apply Z.leb_le; lia).
      rewrite ?Z.add_0_l, E, Nat2Z.id, set_elem_middle. intros Hback.
      destruct (get_set_prop _ _ _ _ Hback) as [Hget|(_ & Hk & _)]; [|discriminate].
      exists (before ++ Continue.transform_config config :: after), named,
        (length before).
      split; [done|]. split.
      * rewrite find_index_found by (done || apply name_is_transform).
        f_equal.
      * rewrite lookup_app_r by lia. by rewrite Nat.sub_diag.
Qed.

(** ** Documents the upsert cannot use *)


(** X7: the list upsert of Continue throws a [TypeError] when the
    container is truthy and not an array (an object or a truthy primitive
    has no [findIndex]) and when the scan for the name meets a [null] or
    [undefined] element before any element with that name; an element that
    is another primitive is passed over. *)
Theorem list_upsert_type_errors config :
  let name := config_name config in
  (forall document container,
      lookup_prop "mcpServers" document = Some container ->
      truthy container = true ->
      (forall servers named, container <> VArr servers named) ->
      is_type_error (Continue.upsert_server_in_list (VObj document) config) = true) /\
  (forall document before hole after named,
      lookup_prop "mcpServers" document
      = Some (VArr (before ++ hole :: after) named) ->
      Forall (no_match name) before ->
      hole = VNull \/ hole = VUndefined ->
      is_type_error (Continue.upsert_server_in_list (VObj document) config) = true) /\
  (forall server, is_primitive server = true ->
                  server = VNull \/ server = VUndefined \/ no_match name server).
Proof.
  intros name. split; [|split].
  - intros document container Hc Htruthy Hnot.
    unfold Continue.upsert_server_in_list.
    cbn [get_prop bindR]. rewrite Hc. cbn [default from_option id].
    rewrite Htruthy. cbn [negb bindR get_prop]. rewrite Hc.
    cbn [default from_option id].
    destruct container as [| |b|x|s|servers named|ps]; try done.
    by destruct (Hnot servers named).
  - intros document before hole after named Hc Hb Hhole.
    rewrite (upsert_in_list_array _ _ _ _ Hc).
    assert (Hscan : is_type_error
              (Continue.find_index_from name (before ++ hole :: after) 0) = true).
    { clear Hc. generalize 0%Z. induction Hb as [|x before Hx Hb IH]; intros i; simpl.
      + by destruct Hhole as [-> | ->].
      + rewrite Hx. simpl. apply IH. }
    fold name. by destruct (Continue.find_index_from _ _ _) as [i|[]].
  - intros server Hprim.
    destruct server; try discriminate;
      [by right; left | by left | by right; right..].
Qed.

(** ** What an adapter does to the file system *)

Section Discipline.
Context {R : NodeRuntime}.

Lemma quiet_ret dir {A} (a : A) : quiet dir (ret a).
Proof. intros w. exists []. simpl. by rewrite app_nil_r. Qed.

Lemma quiet_liftR dir {A} (r : result A) : quiet dir (liftR r).
Proof. intros w. exists []. simpl. by rewrite app_nil_r. Qed.

Lemma quiet_bind dir {A B} (m : M A) (k : A -> M B) :
  quiet dir m -> (forall a, quiet dir (k a)) -> quiet dir (bindM m k).
Proof.
  intros Hm Hk w. unfold bindM. destruct (Hm w) as (l1 & H1 & Q1).
  destruct (m w) as [w1 [a|e]]; simpl in *.
  - destruct (Hk a w1) as (l2 & H2 & Q2). exists (l1 ++ l2).
    rewrite H2, H1, app_assoc, forallb_app, Q1, Q2. done.
  - by exists l1.
Qed.

Lemma quiet_try_catch dir {A} (body : M A) (handler : js_error -> M A) :
  quiet dir body -> (forall e, quiet dir (handler e)) ->
  quiet dir (try_catch body handler).
Proof.
  intros Hb Hh w. unfold try_catch. destruct (Hb w) as (l1 & H1 & Q1).
  destruct (body w) as [w1 [a|e]]; simpl in *.
  - by exists l1.
  - destruct (Hh e w1) as (l2 & H2 & Q2). exists (l1 ++ l2).
    rewrite H2, H1, app_assoc, forallb_app, Q1, Q2. done.
Qed.

Lemma quiet_existsSync dir p : quiet dir (existsSync p).
Proof. intros w. by eexists. Qed.

Lemma quiet_readFileSync dir p : quiet dir (readFileSync p).
Proof. intros w. by eexists. Qed.

Lemma quiet_mkdirSync dir : quiet dir (mkdirSync dir).
Proof.
  intros w. unfold mkdirSync. destruct (fs_mkdirSync dir (files w)).
  eexists. split; [reflexivity|]. simpl. by rewrite String.eqb_refl.
Qed.

Lemma quiet_modify_and_apply dir text at_path v :
  quiet dir (OpenCode.modify_and_apply text at_path v).
Proof. intros w. by eexists. Qed.

Lemma quiet_if dir {A} (b : bool) (m1 m2 : M A) :
  quiet dir m1 -> quiet dir m2 -> quiet dir (if b then m1 else m2).
Proof. by destruct b. Qed.

Lemma saves_writeFileSync dir p data : saves dir p (writeFileSync p data).
Proof.
  intros w. exists []. split; [done|]. right. exists data.
  unfold writeFileSync. by destruct (fs_writeFileSync p data (files w)).
Qed.

Lemma saves_bind dir p {A B} (m : M A) (k : A -> M B) :
  quiet dir m -> (forall a, saves dir p (k a)) -> saves dir p (bindM m k).
Proof.
  intros Hm Hk w. unfold bindM. destruct (Hm w) as (l1 & H1 & Q1).
  destruct (m w) as [w1 [a|e]]; simpl in *.
  - destruct (Hk a w1) as (l2 & Q2 & [[H2 He]|[data H2]]);
      exists (l1 ++ l2); rewrite forallb_app, Q1, Q2; (split; [done|]).
    + left. by rewrite H2, H1, app_assoc.
    + right. exists data. by rewrite H2, H1, !app_assoc.
  - exists l1. split; [done|]. left. eauto.
Qed.
End Discipline.

#[global] Hint Resolve quiet_ret quiet_liftR quiet_existsSync quiet_readFileSync
  quiet_mkdirSync quiet_modify_and_apply saves_writeFileSync : trace.

Ltac keeps_quiet :=
  repeat first
    [ progress intros
    | apply saves_bind
    | apply quiet_bind
    | apply quiet_try_catch
    | apply quiet_if
    | solve [auto with trace] ].

Section Runs.
Context {R : NodeRuntime} {P : Process}.

Lemma disciplined_quiet dir p (more : list call) :
  forallb (quiet_call dir) more = true -> disciplined dir p more = true.
Proof.
  induction more as [|c more IH]; [done|].
  cbn [forallb]. intros [Hc Hmore]%andb_prop.
  destruct c; try discriminate; cbn [disciplined]; cbn [quiet_call] in *;
    by rewrite ?Hc, IH.
Qed.

Lemma disciplined_write dir p (more : list call) data :
  forallb (quiet_call dir) more = true ->
  disciplined dir p (more ++ [WriteFileSync p data]) = true.
Proof.
  induction more as [|c more IH].
  - intros _. apply String.eqb_refl.
  - cbn [forallb]. intros [Hc Hmore]%andb_prop.
    destruct c; try discriminate; cbn [disciplined app]; cbn [quiet_call] in *;
      by rewrite ?Hc, IH.
Qed.

(** The frame around a body that saves. *)
Lemma guarded_saves config_path (body : M unit) w :
  saves (path_dirname config_path) config_path body ->
  forallb (quiet_call (path_dirname config_path)) (calls w) = true ->
  exists w' r,
    guarded config_path body w = (w', Ok r) /\
    path r = config_path /\
    disciplined (path_dirname config_path) config_path (calls w') = true /\
    (success r = true ->
     exists data, last (calls w') = Some (WriteFileSync config_path data)).
Proof.
  intros Hbody Hw. rewrite guarded_run.
  destruct (Hbody w) as (more & Hq & Hcases).
  destruct (body w) as [w' [[]|e]]; simpl in Hcases;
    eexists _, _; (split; [reflexivity|]); (split; [reflexivity|]); simpl.
  - destruct Hcases as [[_ [e He]]|[data ->]]; [discriminate|].
    split.
    + rewrite app_assoc. apply disciplined_write. by rewrite forallb_app, Hw, Hq.
    + intros _. exists data. by rewrite app_assoc, last_snoc.
  - split; [|discriminate].
    destruct Hcases as [[-> _]|[data ->]].
    + apply disciplined_quiet. by rewrite forallb_app, Hw, Hq.
    + rewrite app_assoc. apply disciplined_write. by rewrite forallb_app, Hw, Hq.
Qed.

Lemma quiet_read_config_with dir parse p : quiet dir (read_config_with parse p).
Proof. unfold read_config_with. keeps_quiet. Qed.

Lemma saves_merge_and_write_json dir parse key transform_config p config :
  saves dir p (merge_and_write_json (read_config_with parse) key
                 transform_config p config).
Proof.
  unfold merge_and_write_json. keeps_quiet.
Qed.

Lemma quiet_ensure_directory p : quiet (path_dirname p) (ensure_directory p).
Proof. unfold ensure_directory. keeps_quiet. Qed.

Lemma opencode_saves config options f :
  (exists e,
      OpenCode.add_to_opencode config options (start f) = (start f, Throw e) /\
      thrown_by_a_call e) \/
  (exists w' r,
      OpenCode.add_to_opencode config options (start f) = (w', Ok r) /\
      disciplined (path_dirname (path r)) (path r) (calls w') = true /\
      (success r = true ->
       exists data, last (calls w') = Some (WriteFileSync (path r) data))).
Proof.
  at_any_path base_dir Hpath e Hthrown.
  - right.
    unfold bindM at 1. unfold bindM at 1. unfold existsSync at 1. unfold ret at 1.
    cbv beta iota zeta.
    match goal with
    | |- context [guarded ?p ?body (record (ExistsSync ?probe ?answer) (start f))] =>
        destruct (guarded_saves p body (record (ExistsSync probe answer) (start f)))
          as (w' & r & Hrun & Hp & Hd & Hlast);
        [ apply saves_bind; [apply quiet_ensure_directory|]; intros [];
          unfold OpenCode.read_config; keeps_quiet
        | done | ]
    end.
    exists w', r. split; [exact Hrun|]. by rewrite Hp.
  - left. exists e. split; [|done].
    unfold bindM at 1. by rewrite (run_unresolved _ _ e _ Hthrown).
Qed.

(** X8: every adapter at hand, at either scope, in any process and from
    any state of the file system, either throws before any call what
    [os.homedir()] or [process.cwd()] threw while it resolved its path, or
    returns a result; in the second case it calls [writeFileSync] at most
    once, as its last call and on the path it returns, it calls
    [mkdirSync] on no path but the directory of that path, and when it
    reports success its last call is the write. *)
Theorem adapter_touches_its_file_only config run f :
  run ∈ adapter_runs config ->
  (exists e, run (start f) = (start f, Throw e) /\ thrown_by_a_call e) \/
  (exists w' r,
      run (start f) = (w', Ok r) /\
      disciplined (path_dirname (path r)) (path r) (calls w') = true /\
      (success r = true ->
       exists data, last (calls w') = Some (WriteFileSync (path r) data))).
Proof.
  unfold adapter_runs.
  rewrite !elem_of_cons, elem_of_nil. intros H.
  repeat destruct H as [->|H]; try done;
    try apply opencode_saves;
    (at_any_path config_path Hpath e Hthrown; [right|left; by exists e]);
    simpl;
    match goal with
    | |- context [guarded ?p ?body (start f)] =>
        destruct (guarded_saves p body (start f))
          as (w' & r & Hrun & Hp & Hd & Hlast);
        [ first [ apply saves_merge_and_write_json
                | apply saves_bind;
                  [ first [apply quiet_ensure_directory | apply quiet_ret]
                  | intros [];
                    first [ apply saves_merge_and_write_json
                          | unfold Continue.read_config, Goose.read_config,
                              Codex.read_config;
                            keeps_quiet ] ] ]
        | done
        | exists w', r; split; [exact Hrun|]; by rewrite Hp ]
    end.
Qed.
End Runs.

(** ** Loaders that recover a falsy parse *)

Section Recovering.
Context {R : NodeRuntime}.

Lemma js_or_object_truthy v : truthy (js_or v (VObj [])) = true.
Proof. unfold js_or. by destruct (truthy v) eqn:E. Qed.

Lemma read_recovering_truthy parse config_path w w' document :
  read_config_with
    (fun content => parsed <~ parse content ;; Ok (js_or parsed (VObj [])))
    config_path w = (w', Ok document) ->
  truthy document = true.
Proof.
  rewrite read_config_with_run. cbv zeta.
  destruct (fs_existsSync config_path (files w)); [|by intros [= _ <-]].
  intros [= _ <-].
  destruct (fs_readFileSync config_path (files w)) as [content|e]; [|done].
  destruct (parse content) as [parsed|e]; simpl; [|done].
  apply js_or_object_truthy.
Qed.

(** X9: the loaders of Continue, Goose and OpenCode never return a falsy
    document: what they return can be read at any key without a throw.
    In particular, when the file exists and its text parses to a falsy
    value (as an empty YAML document parses to [null]), the YAML loaders
    return the empty document [{}]. *)
Theorem recovering_loaders_return_objects config_path :
  (forall load w w' document,
      load ∈ recovering_loaders ->
      load config_path w = (w', Ok document) ->
      truthy document = true /\
      forall key, exists v, get_prop document key = Ok v) /\
  (forall load w content parsed,
      load = Continue.read_config \/ load = Goose.read_config ->
      fs_existsSync config_path (files w) = true ->
      fs_readFileSync config_path (files w) = Ok content ->
      YAML_parse content = Ok parsed -> truthy parsed = false ->
      (load config_path w).2 = Ok (VObj [])).
Proof.
  split.
  - intros load w w' document Hin Hload.
    assert (Ht : truthy document = true).
    { unfold recovering_loaders in Hin. rewrite !elem_of_cons, elem_of_nil in Hin.
      destruct Hin as [->|[->|[->|[]]]].
      - by apply read_recovering_truthy in Hload.
      - by apply read_recovering_truthy in Hload.
      - unfold bindM, ret in Hload.
        destruct (OpenCode.read_config config_path w) as [w1 [loaded|e]] eqn:Hread;
          [|done].
        injection Hload as _ <-. by apply opencode_read_config_truthy in Hread. }
    split; [done|]. intros key. by apply get_prop_of_truthy.
  - intros load w content parsed Hload Hex Hread Hparse Hfalsy.
    destruct Hload as [-> | ->];
      unfold Continue.read_config, Goose.read_config;
      rewrite read_config_with_run, Hex, Hread; simpl; rewrite Hparse; simpl;
      unfold js_or; by rewrite Hfalsy.
Qed.

(** ** Running an adapter again *)

(** X10: in the read, merge and write block of the JSON adapters, when a
    first run loaded a document and merged the entry into it, and a second
    run loads the merged document back (the file and [JSON.parse] give back
    what [JSON.stringify] wrote), the second run writes the very text that
    the first run wrote. *)
Theorem second_run_writes_the_same_text key transform_config config_path config
    w1 w1' w2 w2' loaded merged :
  let block :=
    merge_and_write_json (read_config_with JSON_parse) key transform_config
      config_path config in
  let text := JSON_stringify merged +:+ newline in
  read_config_with JSON_parse config_path w1 = (w1', Ok loaded) ->
  upsert_server key loaded (config_name config) (transform_config config)
  = Ok merged ->
  read_config_with JSON_parse config_path w2 = (w2', Ok merged) ->
  block w1 = writeFileSync config_path text w1' /\
  block w2 = writeFileSync config_path text w2'.
Proof.
  intros block text Hfirst Hmerge Hsecond. unfold block.
  rewrite !merge_and_write_json_run, Hfirst, Hsecond, Hmerge.
  by rewrite (upsert_server_idempotent _ _ _ _ _ Hmerge).
Qed.
End Recovering.

(** ** The command line *)

Section CommandLine.
Variable trim : string -> string.

Lemma split_not_nil separator s : Index.split separator s <> [].
Proof.
  destruct s as [|c s]; simpl; [done|].
  destruct (Ascii.eqb c separator); [done|].
  by destruct (Index.split separator s).
Qed.

(** Cutting a text that has the separator in the middle. *)
Lemma split_app separator a b :
  Index.split separator (a +:+ String separator b)
  = Index.split separator a ++ Index.split separator b.
Proof.
  induction a as [|c a IH]; simpl.
  - by rewrite Ascii.eqb_refl.
  - destruct (Ascii.eqb c separator); [by rewrite IH|].
    rewrite IH. pose proof (split_not_nil separator a).
    by destruct (Index.split separator a).
Qed.

Lemma items_app a b :
  filter Index.non_empty (map trim (Index.split "," (a +:+ "," +:+ b)))
  = filter Index.non_empty (map trim (Index.split "," a))
    ++ filter Index.non_empty (map trim (Index.split "," b)).
Proof.
  change ("," +:+ b) with (String "," b).
  by rewrite split_app, map_app, filter_app.
Qed.

Lemma append_not_empty a b : a <> "" -> String.eqb (a +:+ b) "" = false.
Proof. by destruct a. Qed.

(** X11: [parse_comma_separated] returns nothing for a missing or empty
    argument, never returns an empty item, and reads a list written in two
    parts joined by a comma as the items of the first part followed by the
    items of the second. *)
Theorem parse_comma_separated_items :
  Index.parse_comma_separated trim None = [] /\
  Index.parse_comma_separated trim (Some "") = [] /\
  (forall value, Forall (fun item => item <> "")
                   (Index.parse_comma_separated trim value)) /\
  (forall a b, a <> "" -> b <> "" ->
      Index.parse_comma_separated trim (Some (a +:+ "," +:+ b))
      = Index.parse_comma_separated trim (Some a)
        ++ Index.parse_comma_separated trim (Some b)).
Proof.
  split; [done|]. split; [done|]. split.
  - intros [value|]; simpl; [|done].
    destruct (String.eqb value ""); [done|].
    apply Forall_forall. intros item [Hitem _]%list_elem_of_filter.
    unfold Index.non_empty in Hitem. intros ->. done.
  - intros a b Ha Hb. simpl.
    rewrite (append_not_empty a _ Ha).
    destruct a as [|ca a]; [done|]. destruct b as [|cb b]; [done|].
    cbn [String.eqb]. apply items_app.
Qed.

Lemma lookup_assign_pair k result pair :
  k <> "__proto__" ->
  lookup_prop k (Index.assign_pair trim result pair) =
  match lookup_prop k (Index.assign_pair trim [] pair) with
  | Some v => Some v
  | None => lookup_prop k result
  end.
Proof.
  intros Hk. unfold Index.assign_pair.
  destruct (0 <? Index.indexOf "=" pair)%Z; [|done].
  set (key := trim _). set (val := trim _).
  destruct (decide (k = key)) as [->|Hne].
  - by rewrite !lookup_set_own_same.
  - by rewrite !lookup_set_own_other.
Qed.

Lemma lookup_fold_assign k pairs result :
  k <> "__proto__" ->
  lookup_prop k (fold_left (Index.assign_pair trim) pairs result) =
  match lookup_prop k (fold_left (Index.assign_pair trim) pairs []) with
  | Some v => Some v
  | None => lookup_prop k result
  end.
Proof.
  intros Hk. revert result. induction pairs as [|pair pairs IH]; intros result.
  - done.
  - cbn [fold_left]. rewrite (IH (Index.assign_pair trim result pair)).
    rewrite (IH (Index.assign_pair trim [] pair)).
    destruct (lookup_prop k (fold_left (Index.assign_pair trim) pairs [])); [done|].
    by apply lookup_assign_pair.
Qed.

Lemma replace_prop_Forall (P : string * value -> Prop) k v ps :
  Forall P ps -> (forall k', P (k', v)) -> Forall P (replace_prop k v ps).
Proof.
  intros Hps Hv. induction Hps as [|[k0 v0] ps H0 Hps IH]; simpl; [done|].
  destruct (String.eqb k k0); constructor; auto.
Qed.

Lemma assign_pair_strings_only result pair :
  strings_only result -> strings_only (Index.assign_pair trim result pair).
Proof.
  intros [Hall Hproto]. unfold Index.assign_pair.
  destruct (0 <? Index.indexOf "=" pair)%Z; [|done].
  set (key := trim _). set (val := trim _). split.
  - unfold set_own. destruct (lookup_prop key result) eqn:Hl.
    + apply replace_prop_Forall; eauto.
    + destruct (String.eqb key "__proto__"); [done|].
      destruct (define_split key (VStr val) result) as (before & after & -> & ->).
      apply Forall_app in Hall as [Hb Ha]. apply Forall_app. split; [done|].
      constructor; [by exists val|done].
  - destruct (decide (key = "__proto__")) as [->|Hne].
    + unfold set_own. by rewrite Hproto.
    + by rewrite lookup_set_own_other.
Qed.

Lemma fold_assign_strings_only pairs result :
  strings_only result ->
  strings_only (fold_left (Index.assign_pair trim) pairs result).
Proof.
  revert result. induction pairs as [|pair pairs IH]; intros result H; [done|].
  cbn [fold_left]. by apply IH, assign_pair_strings_only.
Qed.

(** X12: [parse_key_value_pairs] returns no property for a missing or
    empty argument; every value it returns is a string and it never
    returns a property named [__proto__]; and in an argument written in two
    parts joined by a comma, a key set in the second part takes the value
    given there, while every other key keeps the value from the first
    part. *)
Theorem parse_key_value_pairs_override :
  Index.parse_key_value_pairs trim None = [] /\
  Index.parse_key_value_pairs trim (Some "") = [] /\
  (forall value,
      Forall (fun kv => exists s, kv.2 = VStr s)
        (Index.parse_key_value_pairs trim value) /\
      lookup_prop "__proto__" (Index.parse_key_value_pairs trim value) = None) /\
  (forall a b k, a <> "" -> b <> "" -> k <> "__proto__" ->
      lookup_prop k (Index.parse_key_value_pairs trim (Some (a +:+ "," +:+ b))) =
      match lookup_prop k (Index.parse_key_value_pairs trim (Some b)) with
      | Some v => Some v
      | None => lookup_prop k (Index.parse_key_value_pairs trim (Some a))
      end).
Proof.
  split; [done|]. split; [done|]. split.
  - intros [value|]; simpl; [|done].
    destruct (String.eqb value ""); [done|].
    by apply fold_assign_strings_only.
  - intros a b k Ha Hb Hk. simpl.
    rewrite (append_not_empty a _ Ha).
    destruct a as [|ca a]; [done|]. destruct b as [|cb b]; [done|].
    cbn [String.eqb]. rewrite items_app, fold_left_app.
    by apply lookup_fold_assign.
Qed.

Lemma report_append first rest :
  Index.report (first ++ rest)
  = ((Index.report first).1.1 ++ (Index.report rest).1.1,
     (Index.report first).1.2 ++ (Index.report rest).1.2,
     (Index.report first).2 || (Index.report rest).2).
Proof.
  unfold Index.report. cbn [fst snd].
  rewrite !filter_app, !map_app, length_app. do 2 f_equal.
  by destruct (filter _ first), (filter _ rest).
Qed.

(** X13: the non-interactive end of [main] reports a successful result
    with [console.log], as the line [client: path], and a failed one with
    [console.error], as the line [client: error], and asks for
    [process.exit(1)] for a failed one; the report of a list of results is
    the report of its parts, one after the other on each stream, with the
    exit asked by either part.  So it prints exactly one line per result
    and calls [process.exit(1)] exactly when some client failed, and when
    it does not, nothing went to [console.error]. *)
Theorem report_exit_status :
  (forall r,
      Index.report [r] =
      if success (Main.outcome r)
      then ([Main.client r +:+ ": " +:+ path (Main.outcome r)], [], false)
      else ([],
            [Main.client r +:+ ": "
             +:+ default "undefined" (error (Main.outcome r))],
            true)) /\
  (forall first rest,
      Index.report (first ++ rest)
      = ((Index.report first).1.1 ++ (Index.report rest).1.1,
         (Index.report first).1.2 ++ (Index.report rest).1.2,
         (Index.report first).2 || (Index.report rest).2)) /\
  (forall results,
      let '(printed, complaints, exits) := Index.report results in
      length printed + length complaints = length results /\
      (exits = true <->
       exists r, r ∈ results /\ success (Main.outcome r) = false) /\
      (exits = false -> complaints = [])).
Proof.
  split; [|split; [apply report_append|]].
  - intros [client [[] config_path error]]; reflexivity.
  - intros results. unfold Index.report. cbv zeta.
    set (failed := filter (fun r => negb (success (Main.outcome r))) results).
    rewrite !length_map. split; [|split].
    + unfold failed. clear failed. induction results as [|r results IH]; [done|].
      rewrite !filter_cons. destruct (success (Main.outcome r)); simpl; lia.
    + split.
      * intros Hex. destruct failed as [|r failed'] eqn:Hf; [done|].
        assert (Hr : r ∈ failed) by (rewrite Hf; left).
        apply list_elem_of_filter in Hr as [Hr Hin].
        exists r. split; [done|]. by destruct (success (Main.outcome r)).
      * intros (r & Hin & Hr).
        assert (Hf : r ∈ failed).
        { apply list_elem_of_filter. split; [by rewrite Hr|done]. }
        by destruct failed; [inversion Hf|].
    + by destruct failed.
Qed.
End CommandLine.

Section Selection.
Context {R : NodeRuntime} {P : Process}.
Variable trim : string -> string.
Variables add_to_copilot_cli add_to_gemini : ClientAddFunction.

(** X14: the ids that [main] keeps from the [--clients] argument are items
    of that argument, in their order and as they were typed, that name a
    registered client once lowercased; in a process in which
    [os.homedir()] and [process.cwd()] return, the loop then returns
    exactly one result per kept id, in that order and under the id as
    typed, provided the two adapters outside this development return a
    result like the others. *)
Theorem selection_is_configured clients_argument config is_global w :
  homedir_throws = None -> cwd_throws = None ->
  adapter_never_throws add_to_copilot_cli ->
  adapter_never_throws add_to_gemini ->
  let selected :=
    Index.selected_from_arguments trim add_to_copilot_cli add_to_gemini
      clients_argument in
  selected `sublist_of` Index.parse_comma_separated trim clients_argument /\
  Forall (fun id => is_Some (Clients.lookup_client add_to_copilot_cli add_to_gemini
                               (toLowerCase id))) selected /\
  exists w' results,
    Main.configure_clients add_to_copilot_cli add_to_gemini config is_global
      selected [] w = (w', Ok results) /\
    map Main.client results = selected.
Proof.
  intros Hhome Hcwd Hc Hg selected.
  assert (Hsel : Forall (Clients.selectable add_to_copilot_cli add_to_gemini)
                   selected).
  { unfold selected, Index.selected_from_arguments.
    destruct clients_argument; [|done].
    apply Forall_forall. intros id [Hid _]%list_elem_of_filter.
    by apply Is_true_true in Hid. }
  split; [|split].
  - unfold selected, Index.selected_from_arguments.
    destruct clients_argument; [apply sublist_filter|apply sublist_nil_l].
  - eapply Forall_impl; [exact Hsel|]. intros id.
    unfold Clients.selectable, Clients.is_client_name.
    destruct (Clients.lookup_client _ _ _); [eauto|discriminate].
  - destruct (configure_clients_total add_to_copilot_cli add_to_gemini config
                is_global selected [] w Hhome Hcwd Hc Hg Hsel)
      as (w' & results & Hrun & Hnames).
    by exists w', results.
Qed.
End Selection.

(** ** Failures before the write *)

Section Failures.
Context {R : NodeRuntime}.

(** What follows is about a process in which [os.homedir()] and
    [process.cwd()] return. *)
#[local] Existing Instance healthy.

Lemma fails_quietly_bind dir {A B} (m : M A) (k : A -> M B) :
  quiet dir m -> (forall a, fails_quietly dir (k a)) ->
  fails_quietly dir (bindM m k).
Proof.
  intros Hm Hk w. unfold bindM. destruct (Hm w) as (l1 & H1 & Q1).
  destruct (m w) as [w1 [a|e]]; simpl in *.
  - destruct (Hk a w1) as (l2 & e & H2 & Q2 & He). exists (l1 ++ l2), e.
    rewrite H2, H1, app_assoc, forallb_app, Q1, Q2. done.
  - by exists l1, e.
Qed.

(** The tail of the YAML and TOML adapters under a serialiser that
    rejects every document. *)
Lemma rejected_before_write dir (stringify : value -> result string)
    (merged : result value) config_path :
  (forall document, exists e, stringify document = Throw e) ->
  fails_quietly dir
    (existing_config <- liftR merged ;;
     text <- liftR (stringify existing_config) ;;
     writeFileSync config_path text).
Proof.
  intros Hreject w. unfold bindM, liftR. destruct merged as [document|e].
  - destruct (Hreject document) as [e ->]. exists [], e.
    simpl. by rewrite app_nil_r.
  - exists [], e. simpl. by rewrite app_nil_r.
Qed.

Lemma guarded_fails_quietly config_path (body : M unit) f :
  fails_quietly (path_dirname config_path) body ->
  exists w' r,
    guarded config_path body (start f) = (w', Ok r) /\
    path r = config_path /\ success r = false /\
    forallb (quiet_call (path_dirname config_path)) (calls w') = true.
Proof.
  intros Hbody. rewrite guarded_run.
  destruct (Hbody (start f)) as (more & e & Hcalls & Hq & He).
  destruct (body (start f)) as [w' [[]|e']]; simpl in *; [done|].
  eexists _, _. split; [reflexivity|]. simpl. by rewrite Hcalls.
Qed.

(** X15: when the YAML or TOML serialiser rejects every document, the
    adapters of Continue, Goose and Codex report a failure and never call
    [writeFileSync]: the file is left as it was. *)
Theorem rejected_document_is_not_written config run stringify f :
  (run, stringify) ∈ serialising_runs config ->
  (forall document, exists e, stringify document = Throw e) ->
  exists w' r,
    run (start f) = (w', Ok r) /\
    success r = false /\
    forallb (quiet_call (path_dirname (path r))) (calls w') = true.
Proof.
  unfold serialising_runs. rewrite !elem_of_cons, elem_of_nil.
  intros H Hreject.
  repeat destruct H as [H|H]; try done; injection H as -> ->;
    at_resolved_path; simpl;
    match goal with
    | |- context [guarded ?p ?body (start f)] =>
        destruct (guarded_fails_quietly p body f)
          as (w' & r & Hrun & Hp & Hs & Hq);
        [ apply fails_quietly_bind; [apply quiet_ensure_directory|];
          intros []; apply fails_quietly_bind;
          [ apply quiet_read_config_with
          | intros existing_config; by apply rejected_before_write ]
        | exists w', r; split; [exact Hrun|]; split; [exact Hs|];
          by rewrite Hp ]
    end.
Qed.

(** The frame around a body that starts with the directory step, when the
    directory is missing and cannot be created. *)
Lemma directory_failure_run config_path (rest : M unit) f f' e :
  let dir := path_dirname config_path in
  fs_existsSync dir f = false ->
  fs_mkdirSync dir f = (f', Throw e) ->
  guarded config_path (ensure_directory config_path ;;; rest) (start f)
  = ({| files := f'; calls := [ExistsSync dir false; MkdirSync dir] |},
     Ok (failed config_path e)).
Proof.
  intros dir Hmissing Hmkdir. subst dir. rewrite guarded_run.
  unfold ensure_directory, existsSync, mkdirSync, record, start.
  unfold bindM. cbn [files calls]. rewrite Hmissing. cbn [negb files calls].
  by rewrite Hmkdir.
Qed.

(** X16: when the directory of the configuration file is missing and
    [mkdirSync] throws, an adapter that starts with the directory step
    stops there: it has asked whether the directory exists and tried to
    create it, it neither reads nor writes the file, and its result is a
    failure that carries the path and the message of what [mkdirSync]
    threw. *)
Theorem directory_failure_stops_the_run config run config_path f f' e :
  let dir := path_dirname config_path in
  (run, config_path) ∈ located_runs config ->
  fs_existsSync dir f = false ->
  fs_mkdirSync dir f = (f', Throw e) ->
  run (start f)
  = ({| files := f'; calls := [ExistsSync dir false; MkdirSync dir] |},
     Ok {| success := false; path := config_path;
           error := Some (err_message e) |}).
Proof.
  intros dir. unfold located_runs. rewrite !elem_of_cons, elem_of_nil.
  intros H Hmissing Hmkdir.
  repeat destruct H as [H|H]; try done; injection H as -> ->; subst dir;
    unfold global_scope, project_scope;
    at_resolved_path_as p Hp; apply (f_equal resolved) in Hp;
    cbn [resolved] in Hp; subst p;
    by apply directory_failure_run.
Qed.
End Failures.

(** ** The prompts *)

Ltac tail_is_not_nil :=
  let Hnil := fresh "Hnil" in
  intros Hnil; repeat (apply app_eq_nil in Hnil as [_ Hnil]); discriminate Hnil.

Section Prompts.
Context {R : NodeRuntime} {P : Process}.
Variable trim : string -> string.
Variables add_to_copilot_cli add_to_gemini : ClientAddFunction.

#[local] Abbreviation selected_of argv :=
  (Index.selected_from_arguments trim add_to_copilot_cli add_to_gemini
     (Index.argv_clients argv)).

#[local] Abbreviation questions_of argv type_input :=
  (Index.questions trim add_to_copilot_cli add_to_gemini argv type_input).

(** X17: with the arguments that [can_run_non_interactive] accepts and a
    type that is [stdio] or [http], [main] shows no prompt, except the one
    for the clients when no item of [--clients] names a registered client;
    with arguments that it does not accept, [main] shows at least one
    prompt. *)
Theorem prompts_follow_the_arguments argv type_input :
  (Index.can_run_non_interactive argv = true ->
   Index.argv_type argv = Some "stdio" \/ Index.argv_type argv = Some "http" ->
   questions_of argv type_input =
   match selected_of argv with [] => [Index.AskClients] | _ :: _ => [] end) /\
  (Index.can_run_non_interactive argv = false ->
   questions_of argv type_input <> []).
Proof.
  unfold Index.questions, Index.can_run_non_interactive.
  destruct argv as [name type command env url headers scope clients_argument].
  cbn [Index.argv_name Index.argv_type Index.argv_command Index.argv_env
       Index.argv_url Index.argv_headers Index.argv_scope Index.argv_clients].
  split.
  - intros Hrun Htype.
    destruct (Index.given name); [|done].
    destruct (Index.given scope); [|by destruct (Index.given type)].
    destruct (Index.given clients_argument); [|by destruct (Index.given type)].
    destruct Htype as [-> | ->]; cbn in Hrun |- *.
    + destruct (Index.given command); [|done]. by destruct env.
    + destruct (Index.given url); [|done]. by destruct headers.
  - intros Hrun.
    destruct (Index.given name); [|done].
    destruct (Index.given type) eqn:Htype; [|done].
    destruct (Index.given scope) eqn:Hscope; [|cbn [app]; tail_is_not_nil].
    destruct clients_argument as [clients_argument|];
      [|cbn [Index.selected_from_arguments app]; tail_is_not_nil].
    destruct (String.eqb clients_argument "") eqn:Hempty.
    { apply String.eqb_eq in Hempty as ->. cbn [app]. tail_is_not_nil. }
    cbn [Index.given] in Hrun. unfold Index.non_empty in Hrun.
    rewrite Hempty in Hrun. cbn [negb orb] in Hrun.
    destruct type as [type|]; [|done]. cbn [default from_option id app].
    cbn [Index.is_text] in Hrun.
    destruct (String.eqb type "stdio") eqn:Hstdio.
    + apply String.eqb_eq in Hstdio as ->. cbn [andb] in Hrun.
      by destruct (Index.given command).
    + cbn [andb] in Hrun. destruct (String.eqb type "http"); [|done].
      cbn [andb] in Hrun. by destruct (Index.given url).
Qed.
End Prompts.

(** ** Examples of the further properties *)

(** Finds an element in a list that is written out. *)
Ltac listed := rewrite !elem_of_cons; repeat first [left; reflexivity | right].

Section Examples.
#[local] Existing Instance Demo.linux.
#[local] Existing Instance healthy.

Lemma local_entry_optional_env_witness :
  lookup_prop "envs"
    (entry_props
       (Goose.transform_config
          (LocalServerConfig "fs" "npx" ["-y"] (Some [("KEY", "v")]))))
  = Some (VObj [("KEY", VStr "v")]).
Proof.
  destruct (local_entry_optional_env Goose.transform_config "envs" "fs" "npx"
              ["-y"] (Some [("KEY", "v")])) as (_ & H & _).
  - unfold local_env_fields. listed.
  - exact H.
Defined.

Lemma remote_entry_optional_headers_witness :
  let entry :=
    Codex.transform_config
      (RemoteServerConfig "docs" "https://example.com/mcp"
         (Some [("Authorization", "Bearer t")])) in
  lookup_prop "url" (entry_props entry) = Some (VStr "https://example.com/mcp") /\
  lookup_prop "http_headers" (entry_props entry)
  = Some (VObj [("Authorization", VStr "Bearer t")]).
Proof.
  destruct (remote_entry_optional_headers Codex.transform_config "url"
              "http_headers" "docs" "https://example.com/mcp"
              (Some [("Authorization", "Bearer t")])) as (_ & Hurl & Hheaders & _).
  - unfold remote_fields. listed.
  - split; [exact Hurl|exact Hheaders].
Defined.

Lemma upsert_creates_container_witness :
  upsert_server "servers" (VObj [("inputs", VArr [] [])]) "fs" fs_entry
  = Ok (VObj [("inputs", VArr [] []); ("servers", VObj [("fs", fs_entry)])]).
Proof.
  destruct (upsert_creates_container "servers" [("inputs", VArr [] [])] "fs"
              fs_entry) as [H _].
  - unfold container_keys. listed.
  - discriminate.
  - apply H. reflexivity.
Defined.

Lemma upsert_keeps_the_others_witness :
  let document :=
    [("theme", VStr "dark"); ("mcpServers", VObj [("other", other_entry)])] in
  exists document',
    VObj [("theme", VStr "dark");
          ("mcpServers", VObj [("other", other_entry); ("fs", fs_entry)])]
    = VObj document' /\
    (forall k, k <> "mcpServers" ->
               lookup_prop k document' = lookup_prop k document) /\
    (forall container,
        lookup_prop "mcpServers" document = Some (VObj container) ->
        exists container',
          lookup_prop "mcpServers" document' = Some (VObj container') /\
          forall k, k <> "fs" -> lookup_prop k container' = lookup_prop k container).
Proof.
  intros document.
  apply (upsert_keeps_the_others "mcpServers" document "fs" fs_entry).
  reflexivity.
Defined.

Lemma upsert_then_read_back_witness :
  (mcp_servers <~
     get_prop (VObj [("mcpServers", VObj [("fs", fs_entry)])]) "mcpServers" ;;
   get_prop mcp_servers "fs")
  = Ok fs_entry.
Proof.
  destruct upsert_then_read_back as [H _].
  apply (H "mcpServers" (VObj []) "fs" fs_entry); [reflexivity|discriminate].
Defined.


Lemma list_upsert_type_errors_witness :
  is_type_error
    (Continue.upsert_server_in_list
       (VObj [("mcpServers", VObj [("other", other_entry)])]) fs_config)
  = true.
Proof.
  destruct (list_upsert_type_errors fs_config) as [H _].
  apply (H [("mcpServers", VObj [("other", other_entry)])]
           (VObj [("other", other_entry)])); [reflexivity|reflexivity|discriminate].
Defined.

Lemma adapter_touches_its_file_only_witness :
  let run := Goose.add_to_goose (P := cwd_removed) fs_config global_scope in
  (exists e, run (start []) = (start [], Throw e) /\
             thrown_by_a_call (P := cwd_removed) e) \/
  (exists w' r,
      run (start []) = (w', Ok r) /\
      disciplined (path_dirname (path r)) (path r) (calls w') = true /\
      (success r = true ->
       exists data, last (calls w') = Some (WriteFileSync (path r) data))).
Proof.
  apply (adapter_touches_its_file_only (R := Demo.linux) (P := cwd_removed)
           fs_config).
  unfold adapter_runs. listed.
Defined.

Lemma recovering_loaders_return_objects_witness :
  let config_path := "/work/.continue/config.yaml" in
  (Continue.read_config config_path
     (start [(config_path, Demo.File "null")])).2
  = Ok (VObj []).
Proof.
  intros config_path.
  destruct (recovering_loaders_return_objects (R := Demo.linux) config_path)
    as [_ H].
  apply (H Continue.read_config
           (start (R := Demo.linux) [(config_path, Demo.File "null")])
           "null" VNull); [by left|reflexivity..].
Defined.

Lemma parse_comma_separated_items_witness :
  Index.parse_comma_separated trim_spaces (Some "Cursor, vscode,,goose")
  = ["Cursor"; "vscode"; "goose"].
Proof.
  destruct (parse_comma_separated_items trim_spaces) as (_ & _ & _ & H).
  exact (H "Cursor, vscode," "goose" ltac:(discriminate) ltac:(discriminate)).
Defined.

Lemma parse_key_value_pairs_override_witness :
  lookup_prop "A"
    (Index.parse_key_value_pairs trim_spaces (Some "A=1, B = two,A=3"))
  = Some (VStr "3").
Proof.
  destruct (parse_key_value_pairs_override trim_spaces) as (_ & _ & _ & H).
  exact (H "A=1, B = two" "A=3" "A" ltac:(discriminate) ltac:(discriminate)
           ltac:(discriminate)).
Defined.

Lemma selection_is_configured_witness :
  exists w' results,
    Main.configure_clients Cursor.add_to_cursor Cursor.add_to_cursor fs_config
      false ["Cursor"; "goose"] [] (start []) = (w', Ok results) /\
    map Main.client results = ["Cursor"; "goose"].
Proof.
  destruct (selection_is_configured (R := Demo.linux) trim_spaces
              Cursor.add_to_cursor Cursor.add_to_cursor
              (Some "Cursor, nope ,goose") fs_config false
              (start (R := Demo.linux) []))
    as (_ & _ & w' & results & Hrun & Hnames).
  - reflexivity.
  - reflexivity.
  - intros config options. apply resolved_never_throws;
      [resolves|intros config_path; apply guarded_never_throws].
  - intros config options. apply resolved_never_throws;
      [resolves|intros config_path; apply guarded_never_throws].
  - exists w', results. split; [exact Hrun|exact Hnames].
Defined.

Lemma prompts_follow_the_arguments_witness :
  let argv :=
    {| Index.argv_name := Some "fs"; Index.argv_type := Some "stdio";
       Index.argv_command := Some "npx"; Index.argv_env := None;
       Index.argv_url := None; Index.argv_headers := None;
       Index.argv_scope := Some "project"; Index.argv_clients := Some "nope" |} in
  Index.questions trim_spaces Cursor.add_to_cursor Cursor.add_to_cursor argv
    "http"
  = [Index.AskClients].
Proof.
  intros argv.
  destruct (prompts_follow_the_arguments (R := Demo.linux) trim_spaces
              Cursor.add_to_cursor Cursor.add_to_cursor argv "http") as [H _].
  exact (H eq_refl (or_introl eq_refl)).
Defined.
End Examples.

Section Examples.
#[local] Existing Instance healthy.

Lemma second_run_writes_the_same_text_witness :
  let config_path := "/work/.cursor/mcp.json" in
  let text := Demo.show fs_cursor_document +:+ newline in
  let block :=
    merge_and_write_json (R := remembering)
      (read_config_with (R := remembering) (JSON_parse (NodeRuntime := remembering)))
      "mcpServers" Cursor.transform_config config_path fs_config in
  let saved := start (R := remembering) [(config_path, Demo.File text)] in
  block (start (R := remembering) [])
  = writeFileSync (R := remembering) config_path text
      (record (ExistsSync config_path false) (start (R := remembering) [])) /\
  block saved
  = writeFileSync (R := remembering) config_path text
      (record (ReadFileSync config_path)
         (record (ExistsSync config_path true) saved)).
Proof.
  intros config_path text block saved.
  apply (second_run_writes_the_same_text (R := remembering) "mcpServers"
           Cursor.transform_config config_path fs_config
           (start (R := remembering) []) _ saved _ (VObj []) fs_cursor_document);
    reflexivity.
Defined.

Lemma rejected_document_is_not_written_witness :
  exists w' r,
    Codex.add_to_codex (R := hostile) fs_config global_scope
      (start (R := hostile) [("/home/u/.codex", Demo.Directory)])
    = (w', Ok r) /\
    success r = false /\
    forallb (quiet_call (path_dirname (NodeRuntime := hostile) (path r)))
      (calls w') = true.
Proof.
  apply (rejected_document_is_not_written (R := hostile) fs_config _
           (TOML_stringify (NodeRuntime := hostile))).
  - unfold serialising_runs. listed.
  - intros document. by eexists.
Defined.

Lemma directory_failure_stops_the_run_witness :
  let dir := "/home/u/.config/goose" in
  Goose.add_to_goose (R := hostile) fs_config global_scope
    (start (R := hostile) [])
  = ({| files := ([] : FS (NodeRuntime := hostile));
        calls := [ExistsSync dir false; MkdirSync dir] |},
     Ok {| success := false; path := "/home/u/.config/goose/config.yaml";
           error := Some "EACCES: permission denied, mkdir" |}).
Proof.
  intros dir.
  apply (directory_failure_stops_the_run (R := hostile) fs_config _
           "/home/u/.config/goose/config.yaml" [] []
           (Error "EACCES: permission denied, mkdir")).
  - unfold located_runs. listed.
  - reflexivity.
  - reflexivity.
Defined.
End Examples.
